(** * Crystal introspection control

    A shallow embedding of [crystal_introspection_control.py]: the
    [Singleton] decorator, the [CrystalIntrospectionControl] facade, the
    [PublishThread] that accumulates counters and flushes them to the
    broker, and the [ControlThread] that refreshes the metric table.

    Conventions of the embedding.
    - Python integers are [Z]; a Python [dict] whose iteration order is
      observable (the two monitoring tables and their buckets) is an
      association list with distinct keys, listed in iteration order; a
      new key goes to the end of the list.  A dict that is only looked up
      (the configuration, a metric table read from Redis) is a [gmap].
    - [d.keys()] is the list Python 2 builds when the call is made, so a
      [for] loop walks a snapshot of the keys while its body mutates the
      dict.
    - A method body is a program of type [prog]: a tree of primitive
      instructions, each one statement-sized access to the thread object
      or to the outside world.  [run] executes a program in one go;
      [interleave] executes several programs on the same object under a
      schedule.
    - A failing access raises: [run] returns [Raised e] together with the
      state as the statements before the failure left it. *)

From Stdlib Require Import QArith.QArith_base.
From stdpp Require Import numbers strings gmap.
From stdpp Require Import base list.

Open Scope Z_scope.

(** ** Python values, exceptions and results *)

Inductive pyval : Type :=
| VNone
| VStr (s : string)
| VInt (z : Z)
| VFloat (q : Q).

Inductive exn : Type :=
| KeyError (k : string)
| TypeError
| ValueError
| AttributeError
| ConnectionError.

Inductive result (X : Type) : Type :=
| Ok (x : X)
| Raised (e : exn).
Arguments Ok {X} x.
Arguments Raised {X} e.

Definition result_bind {X Y} (r : result X) (f : X -> result Y) : result Y :=
  match r with
  | Ok x => f x
  | Raised e => Raised e
  end.

Definition result_map {X Y} (f : X -> Y) (r : result X) : result Y :=
  result_bind r (fun x => Ok (f x)).

(** ** Dictionaries in iteration order *)

Abbreviation dict V := (list (string * V)).

Section PyDict.
Context {V : Type}.
Implicit Types (d : dict V) (k : string) (v : V).

Fixpoint dict_get d k : option V :=
  match d with
  | [] => None
  | (k', v') :: d' => if decide (k' = k) then Some v' else dict_get d' k
  end.

(** [k in d] *)
Definition dict_has d k : bool :=
  match dict_get d k with
  | Some _ => true
  | None => false
  end.

(** [d[k]] *)
Definition getitem d k : result V :=
  match dict_get d k with
  | Some v => Ok v
  | None => Raised (KeyError k)
  end.

(** [d[k] = v]: in place for a key of [d], at the end for a new one. *)
Fixpoint dict_set d k v : dict V :=
  match d with
  | [] => [(k, v)]
  | (k', v') :: d' =>
      if decide (k' = k) then (k', v) :: d' else (k', v') :: dict_set d' k v
  end.

(** [del d[k]], for a key of [d]. *)
Fixpoint dict_del d k : dict V :=
  match d with
  | [] => []
  | (k', v') :: d' =>
      if decide (k' = k) then d' else (k', v') :: dict_del d' k
  end.

(** [d.keys()] *)
Definition dict_keys d : list string := d.*1.
End PyDict.

(** ** The publish thread *)

(** [MetricKey -> counter] and [RoutingKey -> bucket]. *)
Abbreviation bucket := (dict Z).
Abbreviation table := (dict bucket).

(** What [pika.ConnectionParameters] is given. *)
Record ConnectionParameters : Type := {
  host : pyval;
  port : Z;
  credentials : pyval * pyval
}.

Record PublishThread : Type := {
  monitoring_statefull_data : table;
  monitoring_stateless_data : table;
  publish_interval : pyval;
  ip : string;
  exchange : pyval;
  parameters : ConnectionParameters;
  publish_daemon : bool;
  publish_started : bool
}.

(** One [basic_publish]: [body] is the dict handed to [json.dumps]. *)
Record message : Type := {
  msg_exchange : pyval;
  msg_routing_key : string;
  msg_body : dict bucket
}.

(** What the thread does to the outside world, oldest first. *)
Inductive event : Type :=
| Slept (seconds : pyval)
| Connected
| Published (m : message).

(** The thread object together with the I/O it has performed. *)
Record Proc : Type := {
  self : PublishThread;
  trace : list event
}.

Inductive which : Type := Stateless | Statefull.

Definition table_of (w : which) (s : Proc) : table :=
  match w with
  | Stateless => monitoring_stateless_data (self s)
  | Statefull => monitoring_statefull_data (self s)
  end.

Definition set_table (w : which) (t : table) (s : Proc) : Proc :=
  let p := self s in
  {| self :=
       {| monitoring_statefull_data :=
            match w with Statefull => t | Stateless => monitoring_statefull_data p end;
          monitoring_stateless_data :=
            match w with Stateless => t | Statefull => monitoring_stateless_data p end;
          publish_interval := publish_interval p;
          ip := ip p;
          exchange := exchange p;
          parameters := parameters p;
          publish_daemon := publish_daemon p;
          publish_started := publish_started p |};
     trace := trace s |}.

Definition emit (e : event) (s : Proc) : Proc :=
  {| self := self s; trace := trace s ++ [e] |}.

(** The statements of [PublishThread], one constructor per kind of access;
    [w] selects [self.monitoring_stateless_data] or
    [self.monitoring_statefull_data]. *)
Inductive instr : Type -> Type :=
| HasBucket (w : which) (routing_key : string) : instr bool
    (* routing_key in self.monitoring_w_data *)
| NewBucket (w : which) (routing_key : string) : instr unit
    (* self.monitoring_w_data[routing_key] = dict() *)
| HasKey (w : which) (routing_key key : string) : instr bool
    (* key in self.monitoring_w_data[routing_key] *)
| GetItem (w : which) (routing_key key : string) : instr Z
    (* self.monitoring_w_data[routing_key][key] *)
| SetItem (w : which) (routing_key key : string) (v : Z) : instr unit
    (* self.monitoring_w_data[routing_key][key] = v *)
| DelBucket (w : which) (routing_key : string) : instr unit
    (* del self.monitoring_w_data[routing_key] *)
| TableKeys (w : which) : instr (list string)
    (* self.monitoring_w_data.keys() *)
| BucketKeys (w : which) (routing_key : string) : instr (list string)
    (* self.monitoring_w_data[routing_key].keys() *)
| BucketCopy (w : which) (routing_key : string) : instr bucket
    (* self.monitoring_w_data[routing_key].copy() *)
| SelfIp : instr string
    (* self.ip *)
| Sleep : instr unit
    (* time.sleep(self.interval) *)
| Connect : instr unit
    (* rabbit = pika.BlockingConnection(self.parameters); rabbit.channel() *)
| BasicPublish (routing_key : string) (data : dict bucket) : instr unit.
    (* channel.basic_publish(exchange=self.exchange,
                             routing_key=routing_key, body=json.dumps(data)) *)

(** The broker is taken to accept every connection and every message; a
    refusal raises out of [run] and ends the thread. *)
Definition exec {X} (i : instr X) (s : Proc) : result X * Proc :=
  match i in instr X return result X * Proc with
  | HasBucket w rk => (Ok (dict_has (table_of w s) rk), s)
  | NewBucket w rk => (Ok tt, set_table w (dict_set (table_of w s) rk []) s)
  | HasKey w rk key =>
      (result_map (fun b => dict_has b key) (getitem (table_of w s) rk), s)
  | GetItem w rk key =>
      (result_bind (getitem (table_of w s) rk) (fun b => getitem b key), s)
  | SetItem w rk key v =>
      match getitem (table_of w s) rk with
      | Ok b => (Ok tt, set_table w (dict_set (table_of w s) rk (dict_set b key v)) s)
      | Raised e => (Raised e, s)
      end
  | DelBucket w rk =>
      match getitem (table_of w s) rk with
      | Ok _ => (Ok tt, set_table w (dict_del (table_of w s) rk) s)
      | Raised e => (Raised e, s)
      end
  | TableKeys w => (Ok (dict_keys (table_of w s)), s)
  | BucketKeys w rk => (result_map dict_keys (getitem (table_of w s) rk), s)
  | BucketCopy w rk => (getitem (table_of w s) rk, s)
  | SelfIp => (Ok (ip (self s)), s)
  | Sleep => (Ok tt, emit (Slept (publish_interval (self s))) s)
  | Connect => (Ok tt, emit Connected s)
  | BasicPublish rk data =>
      (Ok tt, emit (Published {| msg_exchange := exchange (self s);
                                 msg_routing_key := rk;
                                 msg_body := data |}) s)
  end.

(** ** Programs *)

Inductive prog (R : Type) : Type :=
| Ret (r : R)
| Throw (e : exn)
| Do {X : Type} (i : instr X) (k : X -> prog R).
Arguments Ret {R} r.
Arguments Throw {R} e.
Arguments Do {R X} i k.

Fixpoint bind {A B} (p : prog A) (f : A -> prog B) : prog B :=
  match p with
  | Ret a => f a
  | Throw e => Throw e
  | Do i k => Do i (fun x => bind (k x) f)
  end.

Definition perform {X} (i : instr X) : prog X := Do i Ret.
Coercion perform : instr >-> prog.

Declare Scope prog_scope.
Delimit Scope prog_scope with prog.
Bind Scope prog_scope with prog.
Notation "x <- p ;; q" := (bind p (fun x => q))
  (at level 100, p at next level, right associativity) : prog_scope.
Notation "p ;; q" := (bind p (fun _ => q))
  (at level 100, right associativity) : prog_scope.
Open Scope prog_scope.

Fixpoint run {R} (p : prog R) (s : Proc) : result R * Proc :=
  match p with
  | Ret r => (Ok r, s)
  | Throw e => (Raised e, s)
  | Do i k =>
      match exec i s with
      | (Ok x, s') => run (k x) s'
      | (Raised e, s') => (Raised e, s')
      end
  end.

(** *** The recording methods *)

Definition publish_statefull (routing_key key : string) (value : Z) : prog unit :=
  present <- HasBucket Statefull routing_key ;;
  (if negb present then
     NewBucket Statefull routing_key ;;
     known <- HasKey Statefull routing_key key ;;
     if negb known then SetItem Statefull routing_key key 0 else Ret tt
   else Ret tt) ;;
  old <- GetItem Statefull routing_key key ;;
  SetItem Statefull routing_key key (old + value).

Definition publish_stateless (routing_key key : string) (value : Z) : prog unit :=
  present <- HasBucket Stateless routing_key ;;
  (if negb present then
     NewBucket Stateless routing_key ;;
     known <- HasKey Stateless routing_key key ;;
     if negb known then SetItem Stateless routing_key key 0 else Ret tt
   else Ret tt) ;;
  old <- GetItem Stateless routing_key key ;;
  SetItem Stateless routing_key key (old + value).

(** *** The flush loop *)

(** Lines 123-127: the inner [for key in ...keys()] over a snapshot. *)
Fixpoint reset_counters (routing_key : string) (keys : list string) : prog unit :=
  match keys with
  | [] => Ret tt
  | key :: keys' =>
      v <- GetItem Stateless routing_key key ;;
      (if v =? 0
       then DelBucket Stateless routing_key
       else SetItem Stateless routing_key key 0) ;;
      reset_counters routing_key keys'
  end.

(** Lines 120-131: the first [for routing_key in ...keys()]. *)
Fixpoint flush_stateless (routing_keys : list string) (data : dict bucket)
  : prog (dict bucket) :=
  match routing_keys with
  | [] => Ret data
  | routing_key :: rest =>
      me <- SelfIp ;;
      snapshot <- BucketCopy Stateless routing_key ;;
      let data := dict_set data me snapshot in
      keys <- BucketKeys Stateless routing_key ;;
      reset_counters routing_key keys ;;
      BasicPublish routing_key data ;;
      flush_stateless rest data
  end.

(** Lines 133-138: the second [for routing_key in ...keys()]. *)
Fixpoint flush_statefull (routing_keys : list string) (data : dict bucket)
  : prog (dict bucket) :=
  match routing_keys with
  | [] => Ret data
  | routing_key :: rest =>
      me <- SelfIp ;;
      snapshot <- BucketCopy Statefull routing_key ;;
      let data := dict_set data me snapshot in
      BasicPublish routing_key data ;;
      flush_statefull rest data
  end.

(** One iteration of [while True] in [PublishThread.run]. *)
Definition tick (data : dict bucket) : prog (dict bucket) :=
  Sleep ;;
  Connect ;;
  routing_keys <- TableKeys Stateless ;;
  data <- flush_stateless routing_keys data ;;
  routing_keys <- TableKeys Statefull ;;
  flush_statefull routing_keys data.

Fixpoint ticks (n : nat) (data : dict bucket) : prog (dict bucket) :=
  match n with
  | O => Ret data
  | S n' => data <- tick data ;; ticks n' data
  end.

(** [PublishThread.run]: [data = dict()], then the loop; [n] iterations of
    a loop that has no exit. *)
Definition PublishThread_run (n : nat) : prog (dict bucket) := ticks n [].

(** The facade methods of [CrystalIntrospectionControl]: each forwards to
    [self.publish_thread]. *)
Definition publish_stateful_metric (routing_key key : string) (value : Z) : prog unit :=
  publish_statefull routing_key key value.

Definition publish_stateless_metric (routing_key key : string) (value : Z) : prog unit :=
  publish_stateless routing_key key value.

(** A thread object with the given tables and trace, all else as in [p]. *)
Definition state (p : PublishThread) (statefull stateless : table)
    (tr : list event) : Proc :=
  {| self :=
       {| monitoring_statefull_data := statefull;
          monitoring_stateless_data := stateless;
          publish_interval := publish_interval p;
          ip := ip p;
          exchange := exchange p;
          parameters := parameters p;
          publish_daemon := publish_daemon p;
          publish_started := publish_started p |};
     trace := tr |}.


(** ** The host process, one call at a time

    The recording API is called by the host's request handlers and the loop
    of [PublishThread.run] iterates in its own thread.  [step_call] runs
    one of them to completion before the next starts. *)

Inductive call : Type :=
| RecordStateful (routing_key key : string) (value : Z)
| RecordStateless (routing_key key : string) (value : Z)
| Flush.

(** [data] is the local variable of [PublishThread.run]; [alive] turns
    false when an exception leaves [run], which ends the thread. *)
Record System : Type := {
  proc : Proc;
  data : dict bucket;
  alive : bool
}.

Definition step_call (c : call) (sys : System) : System :=
  match c with
  | RecordStateful rk key value =>
      {| proc := (run (publish_stateful_metric rk key value) (proc sys)).2;
         data := data sys;
         alive := alive sys |}
  | RecordStateless rk key value =>
      {| proc := (run (publish_stateless_metric rk key value) (proc sys)).2;
         data := data sys;
         alive := alive sys |}
  | Flush =>
      if alive sys then
        match run (tick (data sys)) (proc sys) with
        | (Ok d, s') => {| proc := s'; data := d; alive := true |}
        | (Raised _, s') => {| proc := s'; data := data sys; alive := false |}
        end
      else sys
  end.

Definition exec_calls (cs : list call) (sys : System) : System :=
  fold_left (fun sys c => step_call c sys) cs sys.

(** The system when [run] starts: nothing sent yet, [data = dict()]. *)
Definition boot (p : PublishThread) : System :=
  {| proc := {| self := p; trace := [] |}; data := []; alive := true |}.

Definition stateless_of (sys : System) : table :=
  monitoring_stateless_data (self (proc sys)).

Definition statefull_of (sys : System) : table :=
  monitoring_statefull_data (self (proc sys)).

Definition sent (sys : System) : list event := trace (proc sys).

(** ** Threads sharing the thread object

    Each thread is the rest of a method body; a schedule names the thread
    that executes its next instruction.  A thread that raised stays at
    [Throw]. *)

Definition sched_step (i : nat) (st : list (prog unit) * Proc)
  : list (prog unit) * Proc :=
  match st.1 !! i with
  | Some (Do ins k) =>
      match exec ins st.2 with
      | (Ok x, s') => (<[i := k x]> st.1, s')
      | (Raised e, s') => (<[i := Throw e]> st.1, s')
      end
  | _ => st
  end.

Definition interleave (schedule : list nat) (st : list (prog unit) * Proc)
  : list (prog unit) * Proc :=
  fold_left (fun st i => sched_step i st) schedule st.

(** ** Vocabulary of the statements *)

(** The message a flush sends for one bucket. *)
Definition envelope (p : PublishThread) (routing_key : string) (b : bucket) : event :=
  Published {| msg_exchange := exchange p;
               msg_routing_key := routing_key;
               msg_body := [(ip p, b)] |}.

Definition reports (p : PublishThread) (t : table) : list event :=
  map (fun e => envelope p e.1 e.2) t.

(** A table of one-counter buckets after the first loop of a tick. *)
Fixpoint after_flush (t : table) : table :=
  match t with
  | [] => []
  | (rk, [(key, v)]) :: t' =>
      if v =? 0 then after_flush t' else (rk, [(key, 0)]) :: after_flush t'
  | (rk, b) :: t' => (rk, b) :: after_flush t'
  end.

Definition single (e : string * bucket) : Prop := exists key v, e.2 = [(key, v)].

Definition tidy (t : table) : Prop := NoDup (dict_keys t) /\ Forall single t.

(** [data] as [run] holds it: empty, or the last snapshot under [self.ip]. *)
Definition data_ok (p : PublishThread) (d : dict bucket) : Prop :=
  d = [] \/ exists b, d = [(ip p, b)].

Definition data_after (p : PublishThread) (d : dict bucket) (t : table) : dict bucket :=
  match last t with
  | Some e => [(ip p, e.2)]
  | None => d
  end.

(** [d[rk][key]] as an option. *)
Definition counter (t : table) (routing_key key : string) : option Z :=
  match dict_get t routing_key with
  | Some b => dict_get b key
  | None => None
  end.

(** Both recording methods have the body [record_into], on their table. *)
Definition record_into (w : which) (routing_key key : string) (value : Z) : prog unit :=
  present <- HasBucket w routing_key ;;
  (if negb present then
     NewBucket w routing_key ;;
     known <- HasKey w routing_key key ;;
     if negb known then SetItem w routing_key key 0 else Ret tt
   else Ret tt) ;;
  old <- GetItem w routing_key key ;;
  SetItem w routing_key key (old + value).

(** What [record_into] does to its table. *)
Definition record_table (t : table) (routing_key key : string) (value : Z) : table :=
  match dict_get t routing_key with
  | None => t ++ [(routing_key, [(key, value)])]
  | Some b =>
      match dict_get b key with
      | Some old => dict_set t routing_key (dict_set b key (old + value))
      | None => t
      end
  end.

(** The shape of every system reached one call at a time. *)
Definition orderly (p : PublishThread) (sys : System) : Prop :=
  alive sys = true /\ data_ok p (data sys) /\
  exists F T tr, proc sys = state p F T tr /\ tidy F /\ tidy T.

Definition pristine (p : PublishThread) : Prop :=
  monitoring_statefull_data p = [] /\ monitoring_stateless_data p = [].

(** The calls made after the last [Flush]. *)
Definition since_flush (cs : list call) : list call :=
  fold_left (fun acc c => match c with Flush => [] | _ => acc ++ [c] end) cs [].

Definition sum_list (ds : list Z) : Z := fold_right Z.add 0 ds.

(** Instructions that leave [self.monitoring_statefull_data] alone, and
    programs made of them. *)
Definition spares_statefull {X} (i : instr X) : Prop :=
  match i with
  | NewBucket Statefull _ | SetItem Statefull _ _ _ | DelBucket Statefull _ => False
  | _ => True
  end.

Inductive frames_statefull {R} : prog R -> Prop :=
| frames_Ret r : frames_statefull (Ret r)
| frames_Throw e : frames_statefull (Throw e)
| frames_Do {X} (i : instr X) k :
    spares_statefull i -> (forall x, frames_statefull (k x)) ->
    frames_statefull (Do i k).

(** Sequences of calls about one pair of keys. *)
Definition stateful_on (rk key : string) (c : call) : Prop :=
  c = Flush \/ exists d, c = RecordStateful rk key d.

Definition stateless_on (rk key : string) (c : call) : Prop :=
  c = Flush \/ exists d, c = RecordStateless rk key d.

(** The deltas a sequence of calls records, in order. *)
Definition stateful_deltas (cs : list call) : list Z :=
  omap (fun c => match c with RecordStateful _ _ d => Some d | _ => None end) cs.


(** The table that holds one pair of keys, or nothing. *)
Definition pair_table (rk key : string) (v : option Z) : table :=
  match v with
  | Some z => [(rk, [(key, z)])]
  | None => []
  end.

(** The stateless counter of the pair that a sequence of calls is about,
    followed through the calls. *)
Definition pending_step (acc : option Z) (c : call) : option Z :=
  match c with
  | RecordStateless _ _ d => Some (default 0 acc + d)
  | RecordStateful _ _ _ => acc
  | Flush =>
      match acc with
      | Some v => if v =? 0 then None else Some 0
      | None => None
      end
  end.

Definition pending (cs : list call) : option Z := fold_left pending_step cs None.

(** The stateful counter of the pair, followed through the calls. *)
Definition total_step (acc : option Z) (c : call) : option Z :=
  match c with
  | RecordStateful _ _ d => Some (default 0 acc + d)
  | _ => acc
  end.

Definition total (cs : list call) : option Z := fold_left total_step cs None.

(** ** The control thread *)

(** What [hgetall] returns: field to value. *)
Abbreviation metric_table := (gmap string string).

(** The dict objects behind [metric_list], by address: an attribute or a
    caller holds an address, and two holders of one address see one dict. *)
Abbreviation heap := (list metric_table).

Definition alloc (d : metric_table) (h : heap) : nat * heap := (length h, h ++ [d]).

(** [d[k] = v] through an address. *)
Definition heap_setitem (l : nat) (k v : string) (h : heap) : heap :=
  alter (fun d => <[k := v]> d) l h.

(** What [redis.StrictRedis] is given. *)
Record StrictRedis : Type := {
  redis_host : pyval;
  redis_port : pyval;
  redis_db : pyval
}.

Record ControlThread : Type := {
  control_interval : pyval;
  redis : StrictRedis;
  metric_list : nat;
  control_daemon : bool;
  control_started : bool
}.

(** [conf.get(key, dflt)] *)
Definition conf_get (conf : gmap string pyval) (key : string) (dflt : pyval) : pyval :=
  default dflt (conf !! key).

Definition set_metric_list (l : nat) (t : ControlThread) : ControlThread :=
  {| control_interval := control_interval t;
     redis := redis t;
     metric_list := l;
     control_daemon := control_daemon t;
     control_started := control_started t |}.

Definition set_control_daemon (b : bool) (t : ControlThread) : ControlThread :=
  {| control_interval := control_interval t;
     redis := redis t;
     metric_list := metric_list t;
     control_daemon := b;
     control_started := control_started t |}.

Definition set_publish_daemon (b : bool) (t : PublishThread) : PublishThread :=
  {| monitoring_statefull_data := monitoring_statefull_data t;
     monitoring_stateless_data := monitoring_stateless_data t;
     publish_interval := publish_interval t;
     ip := ip t;
     exchange := exchange t;
     parameters := parameters t;
     publish_daemon := b;
     publish_started := publish_started t |}.

Inductive control_event : Type :=
| HGetAll (name : string)
| ControlSlept (seconds : pyval).

(** The control thread, the dict objects and the I/O performed so far. *)
Record Control : Type := {
  thread : ControlThread;
  memory : heap;
  control_trace : list control_event
}.

(** One iteration of [while True] in [ControlThread.run]; [reply] is what
    Redis answers, a fresh dict or an exception. *)
Definition control_iteration (reply : result metric_table) (c : Control)
  : result unit * Control :=
  let tr := control_trace c ++ [HGetAll "metrics"] in
  match reply with
  | Raised e =>
      (Raised e, {| thread := thread c; memory := memory c; control_trace := tr |})
  | Ok fetched =>
      let '(l, h) := alloc fetched (memory c) in
      (Ok tt,
       {| thread := set_metric_list l (thread c);
          memory := h;
          control_trace := tr ++ [ControlSlept (control_interval (thread c))] |})
  end.

(** [ControlThread.run], for as many iterations as there are replies. *)
Fixpoint ControlThread_run (replies : list (result metric_table)) (c : Control)
  : result unit * Control :=
  match replies with
  | [] => (Ok tt, c)
  | reply :: rest =>
      match control_iteration reply c with
      | (Ok _, c') => ControlThread_run rest c'
      | (Raised e, c') => (Raised e, c')
      end
  end.

(** The table the thread holds now. *)
Definition cached (c : Control) : option metric_table :=
  memory c !! metric_list (thread c).

(** ** The facade and its singleton *)

Record Logger : Type := { logger_name : string }.

Record CrystalIntrospectionControl : Type := {
  logger : Logger;
  conf : gmap string pyval;
  control_thread : ControlThread;
  publish_thread : PublishThread;
  threads_started : bool
}.

Definition get_metrics (this : CrystalIntrospectionControl) : nat :=
  metric_list (control_thread this).

(** The keyword arguments of [Instance]: [conf] and [log], each given or
    not.  Any other keyword makes [__init__] raise. *)
Record Kwargs : Type := {
  kw_conf : option (gmap string pyval);
  kw_log : option Logger
}.

(** The instances constructed so far (an instance is known by its index),
    the dict objects, the [_instance] attribute of the decorator ([None]
    while it is not set) and the lines logged. *)
Record World : Type := {
  objects : list CrystalIntrospectionControl;
  dicts : heap;
  singleton_instance : option nat;
  log_lines : list string
}.

Definition info (msg : string) (w : World) : World :=
  {| objects := objects w;
     dicts := dicts w;
     singleton_instance := singleton_instance w;
     log_lines := log_lines w ++ [msg] |}.

(** [a + b] where one operand is known to be a string: a string when the
    other is one too, [TypeError] otherwise. *)
Definition str_plus (a b : pyval) : result string :=
  match a, b with
  | VStr x, VStr y => Ok (x +:+ y)
  | _, _ => Raised TypeError
  end.

Section Runtime.
(** [int(s)] for a string, and the daemon flag of the thread that
    constructs the others, which [Thread.__init__] copies. *)
Variable parse_int : string -> result Z.
Variable creator_daemon : bool.

(** [int(v)] *)
Definition py_int (v : pyval) : result Z :=
  match v with
  | VNone => Raised TypeError
  | VStr s => parse_int s
  | VInt z => Ok z
  | VFloat q => Ok (Z.quot (Qnum q) (Zpos (Qden q)))
  end.

Definition PublishThread_init (conf : gmap string pyval) : result PublishThread :=
  let interval := conf_get conf "publish_interval" (VFloat (101 # 100)) in
  result_bind (str_plus (conf_get conf "bind_ip" VNone) (VStr ":")) (fun prefix =>
  result_bind (str_plus (VStr prefix) (conf_get conf "bind_port" VNone)) (fun address =>
  let exchange := conf_get conf "exchange" (VStr "amq.topic") in
  let rabbit_host := conf_get conf "rabbit_host" VNone in
  result_bind (py_int (conf_get conf "rabbit_port" VNone)) (fun rabbit_port =>
  let rabbit_user := conf_get conf "rabbit_username" VNone in
  let rabbit_pass := conf_get conf "rabbit_password" VNone in
  Ok {| monitoring_statefull_data := [];
        monitoring_stateless_data := [];
        publish_interval := interval;
        ip := address;
        exchange := exchange;
        parameters := {| host := rabbit_host;
                         port := rabbit_port;
                         credentials := (rabbit_user, rabbit_pass) |};
        publish_daemon := creator_daemon;
        publish_started := false |}))).

Definition ControlThread_init (conf : gmap string pyval) (h : heap)
  : ControlThread * heap :=
  let '(l, h') := alloc ∅ h in
  ({| control_interval := conf_get conf "control_interval" (VInt 10);
      redis := {| redis_host := conf_get conf "redis_host" VNone;
                  redis_port := conf_get conf "redis_port" VNone;
                  redis_db := conf_get conf "redis_db" VNone |};
      metric_list := l;
      control_daemon := creator_daemon;
      control_started := false |}, h').

(** [CrystalIntrospectionControl.__init__] *)
Definition CrystalIntrospectionControl_init (conf : gmap string pyval)
    (log : Logger) (h : heap) : result CrystalIntrospectionControl * heap :=
  let '(ct, h') := ControlThread_init conf h in
  let ct := set_control_daemon true ct in
  match PublishThread_init conf with
  | Raised e => (Raised e, h')
  | Ok pt =>
      (Ok {| logger := log;
             conf := conf;
             control_thread := ct;
             publish_thread := set_publish_daemon true pt;
             threads_started := false |}, h')
  end.

(** [Singleton.Instance].  Reading [self._instance] before it is set
    raises [AttributeError], which the method catches to construct the
    instance; an instance is always true in the [if]. *)
Definition Instance (args : Kwargs) (w : World) : result nat * World :=
  match kw_log args with
  | None => (Raised (KeyError "log"), w)
  | Some log =>
      match singleton_instance w with
      | Some i =>
          (Ok i,
           info "Crystal - Singleton instance of introspection control already created" w)
      | None =>
          let w := info "Crystal - Creating singleton instance of introspection control" w in
          match kw_conf args with
          | None => (Raised TypeError, w)
          | Some conf =>
              match CrystalIntrospectionControl_init conf log (dicts w) with
              | (Raised e, h) =>
                  (Raised e,
                   {| objects := objects w;
                      dicts := h;
                      singleton_instance := None;
                      log_lines := log_lines w |})
              | (Ok obj, h) =>
                  (Ok (length (objects w)),
                   {| objects := objects w ++ [obj];
                      dicts := h;
                      singleton_instance := Some (length (objects w));
                      log_lines := log_lines w |})
              end
          end
      end
  end.

(** A series of accesses, in order. *)
Fixpoint Instances (calls : list Kwargs) (w : World) : list (result nat) * World :=
  match calls with
  | [] => ([], w)
  | args :: rest =>
      let '(r, w') := Instance args w in
      let '(rs, w'') := Instances rest w' in
      (r :: rs, w'')
  end.
End Runtime.

(** ** Sample values *)

Definition sample_thread : PublishThread :=
  {| monitoring_statefull_data := [];
     monitoring_stateless_data := [];
     publish_interval := VFloat (101 # 100);
     ip := "10.0.0.1:8080";
     exchange := VStr "amq.topic";
     parameters := {| host := VStr "rabbit"; port := 5672;
                      credentials := (VStr "guest", VStr "guest") |};
     publish_daemon := true;
     publish_started := false |}.

Definition sample_conf : gmap string pyval :=
  list_to_map [("bind_ip", VStr "10.0.0.1"); ("bind_port", VStr "8080");
               ("rabbit_host", VStr "rabbit"); ("rabbit_port", VInt 5672);
               ("rabbit_username", VStr "guest"); ("rabbit_password", VStr "guest");
               ("redis_host", VStr "redis"); ("redis_port", VInt 6379);
               ("redis_db", VInt 0)].

Definition sample_kwargs : Kwargs :=
  {| kw_conf := Some sample_conf; kw_log := Some {| logger_name := "proxy-server" |} |}.

Definition no_digits (s : string) : result Z := Raised ValueError.

Definition empty_world : World :=
  {| objects := []; dicts := []; singleton_instance := None; log_lines := [] |}.

(** The value a message carries for a pair of keys, and the sum of these
    values over a trace. *)
Definition reported_value (me rk key : string) (e : event) : Z :=
  match e with
  | Published m =>
      if decide (msg_routing_key m = rk)
      then default 0 (counter (msg_body m) me key)
      else 0
  | _ => 0
  end.

Definition reported (me rk key : string) (evs : list event) : Z :=
  sum_list (map (reported_value me rk key) evs).

(** The control thread as [ControlThread.__init__] leaves it, before [run]. *)
Definition control_boot (creator_daemon : bool) (conf : gmap string pyval)
    (h : heap) : Control :=
  let '(t, h') := ControlThread_init creator_daemon conf h in
  {| thread := t; memory := h'; control_trace := [] |}.

Definition sample_instance : CrystalIntrospectionControl :=
  {| logger := {| logger_name := "proxy-server" |};
     conf := sample_conf;
     control_thread := set_control_daemon true (thread (control_boot false sample_conf []));
     publish_thread := sample_thread;
     threads_started := false |}.

(** A bucket with every counter at 0. *)
Definition zeroed (b : bucket) : bucket := map (fun e => (e.1, 0)) b.

(** What one call adds to the counter of a pair of keys in one table: its
    delta when it is a recording call for that pair into that table and
    returns normally, nothing otherwise. *)
Definition landed (w : which) (rk key : string) (c : call) (sys : System) : Z :=
  match w, c with
  | Stateless, RecordStateless rk' key' d =>
      if decide ((rk', key') = (rk, key)) then
        match (run (publish_stateless_metric rk' key' d) (proc sys)).1 with
        | Ok _ => d
        | Raised _ => 0
        end
      else 0
  | Statefull, RecordStateful rk' key' d =>
      if decide ((rk', key') = (rk, key)) then
        match (run (publish_stateful_metric rk' key' d) (proc sys)).1 with
        | Ok _ => d
        | Raised _ => 0
        end
      else 0
  | _, _ => 0
  end.

(** The sum of what the calls of a sequence add, each from the system the
    calls before it left. *)
Fixpoint accepted (w : which) (rk key : string) (cs : list call) (sys : System) : Z :=
  match cs with
  | [] => 0
  | c :: cs' => landed w rk key c sys + accepted w rk key cs' (step_call c sys)
  end.

(** A call that records no stateful metric under the routing key. *)
Definition spares_routing_key (rk : string) (c : call) : Prop :=
  match c with
  | RecordStateful rk' _ _ => rk' <> rk
  | _ => True
  end.

(** * Reasoning about programs and dictionaries *)

Lemma state_eta (s : Proc) :
  s = state (self s) (monitoring_statefull_data (self s))
        (monitoring_stateless_data (self s)) (trace s).
Proof. by destruct s as [[]]. Qed.

Lemma run_bind {A B} (p : prog A) (f : A -> prog B) (s : Proc) :
  run (bind p f) s =
  match run p s with
  | (Ok a, s') => run (f a) s'
  | (Raised e, s') => (Raised e, s')
  end.
Proof.
  revert s. induction p as [a|e|X i k IH]; intros s; simpl; try done.
  destruct (exec i s) as [[x|e] s']; [apply IH | done].
Qed.

Section DictFacts.
Context {V : Type}.
Implicit Types (d : dict V) (k : string) (v : V).

Lemma dict_get_None d k : dict_get d k = None <-> k ∉ dict_keys d.
Proof.
  unfold dict_keys. induction d as [|[k' v'] d IH]; simpl.
  - split; [intros _; apply not_elem_of_nil | done].
  - rewrite not_elem_of_cons. destruct (decide (k' = k)) as [->|Hne].
    + split; [done | intros [? _]; done].
    + rewrite IH. split; [intros ?; split; [congruence | done] | intros [_ ?]; done].
Qed.

Lemma dict_get_head d k v : dict_get ((k, v) :: d) k = Some v.
Proof. simpl. by rewrite decide_True. Qed.

Lemma dict_get_app_r d1 d2 k :
  k ∉ dict_keys d1 -> dict_get (d1 ++ d2) k = dict_get d2 k.
Proof.
  unfold dict_keys. induction d1 as [|[k' v'] d1 IH]; simpl; [done|].
  rewrite not_elem_of_cons. intros [Hne Hni].
  rewrite decide_False by congruence. by apply IH.
Qed.

Lemma dict_get_app_l d1 d2 k v :
  dict_get d1 k = Some v -> dict_get (d1 ++ d2) k = Some v.
Proof.
  induction d1 as [|[k' v'] d1 IH]; simpl; [done|].
  destruct (decide (k' = k)); [done | apply IH].
Qed.

Lemma dict_set_app_r d1 d2 k v :
  k ∉ dict_keys d1 -> dict_set (d1 ++ d2) k v = d1 ++ dict_set d2 k v.
Proof.
  unfold dict_keys. induction d1 as [|[k' v'] d1 IH]; simpl; [done|].
  rewrite not_elem_of_cons. intros [Hne Hni].
  rewrite decide_False by congruence. by rewrite IH.
Qed.

Lemma dict_set_head d k v v' : dict_set ((k, v') :: d) k v = (k, v) :: d.
Proof. simpl. by rewrite decide_True. Qed.

Lemma dict_set_new d k v : k ∉ dict_keys d -> dict_set d k v = d ++ [(k, v)].
Proof.
  intros Hni. rewrite <- (app_nil_r d) at 1.
  by rewrite dict_set_app_r.
Qed.

Lemma dict_del_app_r d1 d2 k :
  k ∉ dict_keys d1 -> dict_del (d1 ++ d2) k = d1 ++ dict_del d2 k.
Proof.
  unfold dict_keys. induction d1 as [|[k' v'] d1 IH]; simpl; [done|].
  rewrite not_elem_of_cons. intros [Hne Hni].
  rewrite decide_False by congruence. by rewrite IH.
Qed.

Lemma dict_del_head d k v : dict_del ((k, v) :: d) k = d.
Proof. simpl. by rewrite decide_True. Qed.

Lemma dict_keys_app d1 d2 : dict_keys (d1 ++ d2) = dict_keys d1 ++ dict_keys d2.
Proof. unfold dict_keys. apply fmap_app. Qed.

Lemma dict_get_elem d k v : dict_get d k = Some v -> (k, v) ∈ d.
Proof.
  induction d as [|[k' v'] d IH]; simpl; [done|].
  destruct (decide (k' = k)) as [->|Hne].
  - intros [= ->]. apply list_elem_of_here.
  - intros H. apply list_elem_of_further. by apply IH.
Qed.

Lemma dict_elem_get d k v :
  NoDup (dict_keys d) -> (k, v) ∈ d -> dict_get d k = Some v.
Proof.
  unfold dict_keys. induction d as [|[k' v'] d IH]; csimpl.
  - intros _ H. by apply elem_of_nil in H.
  - rewrite NoDup_cons. intros [Hni Hnd]. rewrite elem_of_cons.
    intros [[= -> ->]|Hin].
    + by rewrite decide_True.
    + rewrite decide_False; [by apply IH|].
      intros ->. apply Hni. apply (list_elem_of_fmap_2 fst) in Hin. done.
Qed.
End DictFacts.

(** *** The recording methods *)

Lemma getitem_Some {V} (d : dict V) k v : dict_get d k = Some v -> getitem d k = Ok v.
Proof. unfold getitem. by intros ->. Qed.

Lemma getitem_None {V} (d : dict V) k :
  dict_get d k = None -> getitem d k = Raised (KeyError k).
Proof. unfold getitem. by intros ->. Qed.

Lemma dict_has_Some {V} (d : dict V) k v : dict_get d k = Some v -> dict_has d k = true.
Proof. unfold dict_has. by intros ->. Qed.

Lemma dict_has_None {V} (d : dict V) k : dict_get d k = None -> dict_has d k = false.
Proof. unfold dict_has. by intros ->. Qed.

Lemma dict_get_set_eq {V} (d : dict V) k v : dict_get (dict_set d k v) k = Some v.
Proof.
  induction d as [|[k' v'] d IH]; simpl.
  - by rewrite decide_True.
  - destruct (decide (k' = k)) as [->|Hne]; simpl.
    + by rewrite decide_True.
    + by rewrite decide_False.
Qed.

Lemma dict_set_set {V} (d : dict V) k v v' :
  dict_set (dict_set d k v) k v' = dict_set d k v'.
Proof.
  induction d as [|[k' w] d IH]; simpl.
  - by rewrite decide_True.
  - destruct (decide (k' = k)) as [->|Hne]; simpl.
    + by rewrite decide_True.
    + rewrite decide_False by done. by rewrite IH.
Qed.

Lemma table_of_set_table w t s : table_of w (set_table w t s) = t.
Proof. by destruct w. Qed.

Lemma set_table_set_table w t t' s : set_table w t' (set_table w t s) = set_table w t' s.
Proof. by destruct w. Qed.

Lemma getitem_set {V} (d : dict V) k v : getitem (dict_set d k v) k = Ok v.
Proof. apply getitem_Some, dict_get_set_eq. Qed.

Lemma getitem_head {V} (d : dict V) k v : getitem ((k, v) :: d) k = Ok v.
Proof. apply getitem_Some, dict_get_head. Qed.

Lemma dict_has_nil {V} k : dict_has (@nil (string * V)) k = false.
Proof. done. Qed.

Lemma dict_has_head {V} (d : dict V) k v : dict_has ((k, v) :: d) k = true.
Proof. eapply dict_has_Some, dict_get_head. Qed.

Lemma dict_set_nil {V} k (v : V) : dict_set [] k v = [(k, v)].
Proof. done. Qed.

Ltac table_simpl :=
  repeat (progress (
    cbn [run bind perform exec result_map result_bind negb];
    rewrite ?table_of_set_table, ?set_table_set_table, ?getitem_set,
      ?dict_set_set, ?getitem_head, ?dict_set_head, ?dict_has_nil,
      ?dict_has_head, ?dict_set_nil, ?dict_del_head)).

Lemma record_into_new w rk key value s :
  dict_get (table_of w s) rk = None ->
  run (record_into w rk key value) s =
  (Ok tt, set_table w (table_of w s ++ [(rk, [(key, value)])]) s).
Proof.
  intros Hnone. unfold record_into. table_simpl.
  rewrite (dict_has_None _ _ Hnone). table_simpl.
  rewrite dict_set_new; [done|]. by apply dict_get_None.
Qed.

Lemma record_into_known w rk key value s b old :
  dict_get (table_of w s) rk = Some b ->
  dict_get b key = Some old ->
  run (record_into w rk key value) s =
  (Ok tt, set_table w (dict_set (table_of w s) rk (dict_set b key (old + value))) s).
Proof.
  intros Hb Hold. unfold record_into. simpl.
  rewrite (dict_has_Some _ _ _ Hb). table_simpl.
  rewrite (getitem_Some _ _ _ Hb). table_simpl.
  rewrite (getitem_Some _ _ _ Hold). table_simpl. done.
Qed.

Lemma record_into_unknown w rk key value s b :
  dict_get (table_of w s) rk = Some b ->
  dict_get b key = None ->
  run (record_into w rk key value) s = (Raised (KeyError key), s).
Proof.
  intros Hb Hnone. unfold record_into. simpl.
  rewrite (dict_has_Some _ _ _ Hb). table_simpl.
  rewrite (getitem_Some _ _ _ Hb). table_simpl.
  rewrite (getitem_None _ _ Hnone). done.
Qed.

Lemma publish_stateless_body rk key value :
  publish_stateless rk key value = record_into Stateless rk key value.
Proof. reflexivity. Qed.

Lemma publish_statefull_body rk key value :
  publish_statefull rk key value = record_into Statefull rk key value.
Proof. reflexivity. Qed.

(** *** The flush loop on tables of one-counter buckets *)

Lemma table_of_stateless p F T tr : table_of Stateless (state p F T tr) = T.
Proof. done. Qed.

Lemma table_of_statefull p F T tr : table_of Statefull (state p F T tr) = F.
Proof. done. Qed.

Lemma set_stateless p F T T' tr :
  set_table Stateless T' (state p F T tr) = state p F T' tr.
Proof. done. Qed.

Lemma set_statefull p F F' T tr :
  set_table Statefull F' (state p F T tr) = state p F' T tr.
Proof. done. Qed.

Lemma emit_state e p F T tr : emit e (state p F T tr) = state p F T (tr ++ [e]).
Proof. done. Qed.

Lemma ip_state p F T tr : ip (self (state p F T tr)) = ip p.
Proof. done. Qed.

Lemma exchange_state p F T tr : exchange (self (state p F T tr)) = exchange p.
Proof. done. Qed.

Lemma interval_state p F T tr :
  publish_interval (self (state p F T tr)) = publish_interval p.
Proof. done. Qed.

Lemma getitem_app_r {V} (d1 d2 : dict V) k :
  k ∉ dict_keys d1 -> getitem (d1 ++ d2) k = getitem d2 k.
Proof. intros H. unfold getitem. by rewrite dict_get_app_r. Qed.

Ltac state_simpl :=
  repeat (progress (
    cbn [run bind perform exec result_map result_bind negb];
    rewrite ?table_of_stateless, ?table_of_statefull, ?set_stateless,
      ?set_statefull, ?emit_state, ?ip_state, ?exchange_state,
      ?interval_state, ?getitem_head, ?dict_set_head, ?dict_del_head,
      ?dict_set_nil)).

Lemma data_ok_set p d b : data_ok p d -> dict_set d (ip p) b = [(ip p, b)].
Proof. intros [->|[b' ->]]; [done | apply dict_set_head]. Qed.

Lemma data_ok_after p d t : data_ok p d -> data_ok p (data_after p d t).
Proof.
  intros Hd. unfold data_after. destruct (last t); [right; eauto | done].
Qed.

Lemma data_after_cons p d e t :
  data_after p d (e :: t) = data_after p [(ip p, e.2)] t.
Proof.
  unfold data_after. destruct t as [|e' t]; [done|].
  rewrite last_cons_cons.
  destruct (last (e' :: t)) eqn:E; [done|]. by apply last_None in E.
Qed.

Lemma reset_counters_single p F done rk key v todo tr :
  rk ∉ dict_keys done ->
  run (reset_counters rk [key]) (state p F (done ++ (rk, [(key, v)]) :: todo) tr) =
  (Ok tt,
   state p F (done ++ (if v =? 0 then [] else [(rk, [(key, 0)])]) ++ todo) tr).
Proof.
  intros Hni. cbn [reset_counters]. state_simpl.
  rewrite (getitem_app_r _ _ _ Hni). state_simpl.
  destruct (v =? 0); state_simpl; rewrite (getitem_app_r _ _ _ Hni); state_simpl.
  - by rewrite dict_del_app_r, dict_del_head.
  - by rewrite dict_set_app_r, dict_set_head.
Qed.

Lemma flush_stateless_tidy p F todo : forall done d tr,
  NoDup (dict_keys (done ++ todo)) -> Forall single todo -> data_ok p d ->
  run (flush_stateless (dict_keys todo) d) (state p F (done ++ todo) tr) =
  (Ok (data_after p d todo),
   state p F (done ++ after_flush todo) (tr ++ reports p todo)).
Proof.
  induction todo as [|[rk b] todo IH]; intros done d tr Hnd Hsingle Hd.
  - simpl. by rewrite !app_nil_r.
  - apply Forall_cons in Hsingle as [(key & v & Hb) Hsingle]. simpl in Hb. subst b.
    assert (Hni : rk ∉ dict_keys done).
    { rewrite dict_keys_app in Hnd. apply NoDup_app in Hnd as (_ & Hdisj & _).
      intros Hin. apply (Hdisj rk Hin). unfold dict_keys. csimpl. apply list_elem_of_here. }
    change (dict_keys ((rk, [(key, v)]) :: todo)) with (rk :: dict_keys todo).
    cbn [flush_stateless]. state_simpl.
    rewrite (getitem_app_r _ _ _ Hni). state_simpl.
    change (dict_keys [(key, v)]) with [key].
    rewrite run_bind, reset_counters_single by done. state_simpl.
    rewrite (data_ok_set _ _ _ Hd), data_after_cons.
    rewrite (app_assoc done), IH.
    + f_equal. rewrite <- !app_assoc. f_equal.
      cbn [after_flush]. by destruct (v =? 0).
    + rewrite <- app_assoc. rewrite !dict_keys_app in *.
      destruct (v =? 0); [|done].
      eapply sublist_NoDup; [exact Hnd|].
      apply sublist_app; [done|]. by apply sublist_cons.
    + done.
    + right. eauto.
Qed.

Lemma flush_statefull_all p T todo : forall done d tr,
  NoDup (dict_keys (done ++ todo)) -> data_ok p d ->
  run (flush_statefull (dict_keys todo) d) (state p (done ++ todo) T tr) =
  (Ok (data_after p d todo), state p (done ++ todo) T (tr ++ reports p todo)).
Proof.
  induction todo as [|[rk b] todo IH]; intros done d tr Hnd Hd.
  - simpl. by rewrite !app_nil_r.
  - assert (Hni : rk ∉ dict_keys done).
    { rewrite dict_keys_app in Hnd. apply NoDup_app in Hnd as (_ & Hdisj & _).
      intros Hin. apply (Hdisj rk Hin). unfold dict_keys. csimpl. apply list_elem_of_here. }
    change (dict_keys ((rk, b) :: todo)) with (rk :: dict_keys todo).
    cbn [flush_statefull]. state_simpl.
    rewrite (getitem_app_r _ _ _ Hni). state_simpl.
    rewrite (data_ok_set _ _ _ Hd), data_after_cons.
    change (done ++ (rk, b) :: todo) with (done ++ [(rk, b)] ++ todo).
    rewrite (app_assoc done), IH.
    + f_equal. by rewrite <- !app_assoc.
    + by rewrite <- app_assoc.
    + right. eauto.
Qed.

(** One tick on tidy tables: every bucket is reported as it stands, the
    stateless ones are then reset or dropped, the stateful ones kept. *)
Lemma tick_tidy p F T d tr :
  tidy T -> NoDup (dict_keys F) -> data_ok p d ->
  run (tick d) (state p F T tr) =
  (Ok (data_after p (data_after p d T) F),
   state p F (after_flush T)
     (tr ++ [Slept (publish_interval p); Connected] ++ reports p T ++ reports p F)).
Proof.
  intros [HndT HsT] HndF Hd. unfold tick. state_simpl.
  rewrite run_bind.
  rewrite (flush_stateless_tidy p F T [] d) by done. state_simpl.
  rewrite (flush_statefull_all p _ F [] _) by (done || by apply data_ok_after).
  f_equal. simpl. rewrite <- !app_assoc. done.
Qed.

(** *** One call at a time *)

Lemma set_table_same w s : set_table w (table_of w s) s = s.
Proof. by destruct w, s as [[]]. Qed.

Lemma run_record_into w rk key value s :
  run (record_into w rk key value) s =
  (match dict_get (table_of w s) rk with
   | Some b => match dict_get b key with
               | Some _ => Ok tt
               | None => Raised (KeyError key)
               end
   | None => Ok tt
   end,
   set_table w (record_table (table_of w s) rk key value) s).
Proof.
  unfold record_table.
  destruct (dict_get (table_of w s) rk) as [b|] eqn:Hb.
  - destruct (dict_get b key) as [old|] eqn:Hold.
    + by erewrite record_into_known.
    + erewrite record_into_unknown by done. by rewrite set_table_same.
  - by rewrite record_into_new.
Qed.

Lemma dict_get_set_ne {V} (d : dict V) k k' v :
  k' <> k -> dict_get (dict_set d k' v) k = dict_get d k.
Proof.
  intros Hne. induction d as [|[k0 v0] d IH]; simpl.
  - by rewrite decide_False.
  - destruct (decide (k0 = k')) as [->|Hne']; simpl.
    + by rewrite !decide_False.
    + destruct (decide (k0 = k)); [done | apply IH].
Qed.

Lemma dict_keys_set {V} (d : dict V) k v v0 :
  dict_get d k = Some v0 -> dict_keys (dict_set d k v) = dict_keys d.
Proof.
  unfold dict_keys. induction d as [|[k0 w] d IH]; simpl; [done|].
  destruct (decide (k0 = k)) as [->|Hne]; csimpl; [done|].
  intros H. by rewrite IH.
Qed.

(** A record for one pair leaves every other counter as it was. *)
Lemma counter_record_other t rk key value rk' key' :
  (rk', key') <> (rk, key) ->
  counter (record_table t rk key value) rk' key' = counter t rk' key'.
Proof.
  intros Hne. unfold record_table, counter.
  destruct (dict_get t rk) as [b|] eqn:Hb.
  - destruct (dict_get b key) as [old|] eqn:Hold; [|done].
    destruct (decide (rk = rk')) as [<-|Hrk].
    + rewrite dict_get_set_eq, Hb. apply dict_get_set_ne. congruence.
    + by rewrite dict_get_set_ne.
  - destruct (decide (rk = rk')) as [<-|Hrk].
    + rewrite Hb. apply dict_get_None in Hb.
      rewrite dict_get_app_r by done. simpl. rewrite decide_True by done.
      simpl. rewrite decide_False; [done | congruence].
    + destruct (dict_get t rk') as [b'|] eqn:Hb'.
      * by erewrite dict_get_app_l.
      * apply dict_get_None in Hb'. rewrite dict_get_app_r by done.
        simpl. by rewrite decide_False.
Qed.

Lemma tidy_nil : tidy [].
Proof. split; [apply NoDup_nil_2 | apply Forall_nil_2]. Qed.

Lemma tidy_record_table t rk key value : tidy t -> tidy (record_table t rk key value).
Proof.
  intros [Hnd Hs]. unfold record_table.
  destruct (dict_get t rk) as [b|] eqn:Hb.
  - destruct (dict_get b key) as [old|] eqn:Hold; [|done]. split.
    + by erewrite dict_keys_set.
    + clear Hnd. induction t as [|[k0 b0] t IH]; simpl in *; [done|].
      apply Forall_cons in Hs as [H0 Hs].
      destruct (decide (k0 = rk)) as [->|Hne].
      * injection Hb as ->. apply Forall_cons. split; [|done].
        destruct H0 as (k1 & v1 & H1). simpl in H1. subst b.
        simpl in *. destruct (decide (k1 = key)); [|done].
        by exists k1, (old + value).
      * apply Forall_cons. split; [done|]. by apply IH.
  - apply dict_get_None in Hb. split.
    + rewrite dict_keys_app. apply NoDup_app. split_and!; [done| |apply NoDup_singleton].
      intros x Hx Hx'. apply list_elem_of_singleton in Hx'. by subst.
    + apply Forall_app. split; [done|]. apply Forall_singleton. by exists key, value.
Qed.

Lemma after_flush_sublist t :
  dict_keys (after_flush t) `sublist_of` dict_keys t.
Proof.
  unfold dict_keys.
  induction t as [|[rk [|[k v] [|e b]]] t IH]; csimpl;
    try (by apply sublist_skip); [done|].
  destruct (v =? 0); csimpl; [by apply sublist_cons | by apply sublist_skip].
Qed.

Lemma tidy_after_flush t : tidy t -> tidy (after_flush t).
Proof.
  intros [Hnd Hs]. split.
  - eapply sublist_NoDup; [exact Hnd | apply after_flush_sublist].
  - clear Hnd. induction t as [|[rk b] t IH]; [done|].
    apply Forall_cons in Hs as [(k & v & Hb) Hs]. simpl in Hb. subst b.
    simpl. destruct (v =? 0); [by apply IH|].
    apply Forall_cons. split; [by exists k, 0 | by apply IH].
Qed.

(** What is left after a flush was reported with a value other than 0, and
    is left at 0. *)
Lemma counter_after_flush t rk key x :
  tidy t -> counter (after_flush t) rk key = Some x ->
  x = 0 /\ exists v, v <> 0 /\ counter t rk key = Some v.
Proof.
  intros [Hnd Hs]. unfold counter. induction t as [|[rk0 b] t IH]; [done|].
  apply Forall_cons in Hs as [(k & v & Hb) Hs]. simpl in Hb. subst b.
  unfold dict_keys in Hnd. csimpl in Hnd. apply NoDup_cons in Hnd as [Hni Hnd].
  simpl. destruct (decide (rk0 = rk)) as [->|Hne].
  - destruct (Z.eqb_spec v 0) as [->|Hv].
    + intros H. exfalso.
      destruct (dict_get (after_flush t) rk) as [b|] eqn:Hb; [|done].
      apply dict_get_elem, (list_elem_of_fmap_2 fst) in Hb.
      apply Hni. eapply elem_of_sublist; [exact Hb | apply after_flush_sublist].
    + simpl. rewrite decide_True by done. simpl.
      destruct (decide (k = key)); [|done]. intros [= <-]. eauto.
  - destruct (v =? 0); simpl; rewrite ?decide_False by done; by apply IH.
Qed.

Lemma exec_calls_app cs1 cs2 sys :
  exec_calls (cs1 ++ cs2) sys = exec_calls cs2 (exec_calls cs1 sys).
Proof. apply fold_left_app. Qed.

Lemma exec_calls_snoc cs c sys :
  exec_calls (cs ++ [c]) sys = step_call c (exec_calls cs sys).
Proof. by rewrite exec_calls_app. Qed.

Lemma step_record_stateless p F T tr d a rk key v :
  step_call (RecordStateless rk key v) {| proc := state p F T tr; data := d; alive := a |} =
  {| proc := state p F (record_table T rk key v) tr; data := d; alive := a |}.
Proof.
  unfold step_call, publish_stateless_metric.
  by rewrite publish_stateless_body, run_record_into.
Qed.

Lemma step_record_stateful p F T tr d a rk key v :
  step_call (RecordStateful rk key v) {| proc := state p F T tr; data := d; alive := a |} =
  {| proc := state p (record_table F rk key v) T tr; data := d; alive := a |}.
Proof.
  unfold step_call, publish_stateful_metric.
  by rewrite publish_statefull_body, run_record_into.
Qed.

Lemma step_flush_tidy p F T tr d :
  tidy T -> NoDup (dict_keys F) -> data_ok p d ->
  step_call Flush {| proc := state p F T tr; data := d; alive := true |} =
  {| proc := state p F (after_flush T)
               (tr ++ [Slept (publish_interval p); Connected]
                   ++ reports p T ++ reports p F);
     data := data_after p (data_after p d T) F;
     alive := true |}.
Proof. intros HT HF Hd. cbn [step_call alive proc data]. by rewrite tick_tidy. Qed.

Lemma orderly_boot p : pristine p -> orderly p (boot p).
Proof.
  intros [HF HT]. split_and!; [done | by left |].
  exists [], [], []. split_and!; [|apply tidy_nil..].
  unfold boot. f_equal. destruct p; simpl in *. by subst.
Qed.

Lemma orderly_step p c sys : orderly p sys -> orderly p (step_call c sys).
Proof.
  intros (Ha & Hd & F & T & tr & Hp & HF & HT).
  destruct sys as [s d a]. simpl in *. subst s a. destruct c as [rk k v|rk k v|].
  - rewrite step_record_stateful. split_and!; [done..|].
    eexists _, _, _. split_and!; [done | by apply tidy_record_table | done].
  - rewrite step_record_stateless. split_and!; [done..|].
    eexists _, _, _. split_and!; [done | done | by apply tidy_record_table].
  - rewrite step_flush_tidy by (done || apply HF). split_and!; [done | |].
    + by do 2 apply data_ok_after.
    + eexists _, _, _. split_and!; [done | done | by apply tidy_after_flush].
Qed.

Lemma orderly_exec_calls p cs sys : orderly p sys -> orderly p (exec_calls cs sys).
Proof.
  revert sys. induction cs as [|c cs IH]; intros sys H; [done|].
  simpl. by apply IH, orderly_step.
Qed.

(** *** The flush loop never writes the stateful table *)

Lemma frames_bind {A B} (p : prog A) (f : A -> prog B) :
  frames_statefull p -> (forall a, frames_statefull (f a)) ->
  frames_statefull (bind p f).
Proof.
  intros Hp Hf. induction Hp as [r|e|X i k Hi Hk IH]; simpl.
  - apply Hf.
  - constructor.
  - constructor; [done | apply IH].
Qed.

Lemma frames_perform {X} (i : instr X) :
  spares_statefull i -> frames_statefull (perform i).
Proof. intros Hi. constructor; [done | intros x; constructor]. Qed.

Lemma exec_spares {X} (i : instr X) s :
  spares_statefull i ->
  monitoring_statefull_data (self (exec i s).2) = monitoring_statefull_data (self s).
Proof.
  destruct i as [w rk|w rk|w rk key|w rk key|w rk key v|w rk|w|w rk|w rk| | | |rk d];
    simpl; try done; destruct w; try done; intros _;
    by destruct (getitem (table_of Stateless s) rk).
Qed.

Lemma run_frames {R} (p : prog R) s :
  frames_statefull p ->
  monitoring_statefull_data (self (run p s).2) = monitoring_statefull_data (self s).
Proof.
  intros Hp. revert s. induction Hp as [r|e|X i k Hi Hk IH]; intros s; simpl; try done.
  pose proof (exec_spares i s Hi) as He.
  destruct (exec i s) as [[x|e] s']; simpl in *; [|done].
  by rewrite IH.
Qed.

Lemma frames_reset_counters rk keys : frames_statefull (reset_counters rk keys).
Proof.
  induction keys as [|key keys IH]; simpl; [constructor|].
  constructor; [done|]. intros v. simpl.
  apply frames_bind; [|done].
  destruct (v =? 0); by apply frames_perform.
Qed.

Lemma frames_flush_stateless rks : forall d, frames_statefull (flush_stateless rks d).
Proof.
  induction rks as [|rk rks IH]; intros d; simpl; [constructor|].
  constructor; [done|]. intros me. simpl.
  constructor; [done|]. intros snapshot. simpl.
  constructor; [done|]. intros keys. simpl.
  apply frames_bind; [apply frames_reset_counters|]. intros _.
  constructor; [done|]. intros _. simpl. apply IH.
Qed.

Lemma frames_flush_statefull rks : forall d, frames_statefull (flush_statefull rks d).
Proof.
  induction rks as [|rk rks IH]; intros d; simpl; [constructor|].
  constructor; [done|]. intros me. simpl.
  constructor; [done|]. intros snapshot. simpl.
  constructor; [done|]. intros _. simpl. apply IH.
Qed.

Lemma frames_tick d : frames_statefull (tick d).
Proof.
  unfold tick. simpl.
  constructor; [done|]. intros _. simpl.
  constructor; [done|]. intros _. simpl.
  constructor; [done|]. intros rks. simpl.
  apply frames_bind; [apply frames_flush_stateless|]. intros d'.
  constructor; [done|]. intros rks'. simpl. apply frames_flush_statefull.
Qed.

Lemma step_flush_statefull sys : statefull_of (step_call Flush sys) = statefull_of sys.
Proof.
  unfold statefull_of, step_call. destruct (alive sys); [|done].
  pose proof (run_frames (tick (data sys)) (proc sys) (frames_tick _)) as H.
  by destruct (run (tick (data sys)) (proc sys)) as [[d|e] s'].
Qed.

(** *** Sequences of calls about one pair of keys *)

Lemma sum_list_app ds1 ds2 : sum_list (ds1 ++ ds2) = sum_list ds1 + sum_list ds2.
Proof. unfold sum_list. induction ds1 as [|d ds1 IH]; simpl; [done | lia]. Qed.

Lemma record_pair_table rk key v d :
  record_table (pair_table rk key v) rk key d = pair_table rk key (Some (default 0 v + d)).
Proof.
  destruct v as [z|]; unfold record_table, pair_table; [|done].
  by rewrite !dict_get_head, !dict_set_head.
Qed.

Lemma after_flush_pair_table rk key v :
  after_flush (pair_table rk key v) = pair_table rk key (pending_step v Flush).
Proof. destruct v as [z|]; simpl; [|done]. by destruct (z =? 0). Qed.

Lemma tidy_pair_table rk key v : tidy (pair_table rk key v).
Proof.
  destruct v as [z|]; [|apply tidy_nil]. split.
  - apply NoDup_singleton.
  - apply Forall_singleton. by exists key, z.
Qed.

Lemma reports_pair_table p rk key v :
  reports p (pair_table rk key v) =
  match v with Some z => [envelope p rk [(key, z)]] | None => [] end.
Proof. by destruct v. Qed.

Lemma stateless_run p rk key cs :
  pristine p -> Forall (stateless_on rk key) cs ->
  exists tr d, data_ok p d /\
    exec_calls cs (boot p) =
    {| proc := state p [] (pair_table rk key (pending cs)) tr; data := d; alive := true |}.
Proof.
  intros Hp. induction cs as [|c cs IH] using rev_ind; intros Hcs.
  - exists [], []. split; [by left|]. destruct Hp as [HF HT].
    unfold boot, exec_calls. simpl. f_equal. destruct p; simpl in *. by subst.
  - rewrite Forall_app, Forall_singleton in Hcs. destruct Hcs as [Hcs Hc].
    destruct (IH Hcs) as (tr & d & Hd & Hrun).
    rewrite exec_calls_snoc, Hrun. unfold pending. rewrite fold_left_app. simpl.
    fold (pending cs). unfold stateless_on in Hc. destruct Hc as [->|[z ->]].
    + rewrite step_flush_tidy;
        [|apply tidy_pair_table|apply NoDup_nil_2|done].
      eexists _, _. split; [by do 2 apply data_ok_after|].
      by rewrite after_flush_pair_table.
    + rewrite step_record_stateless, record_pair_table. eauto.
Qed.

Lemma stateful_run p rk key cs :
  pristine p -> Forall (stateful_on rk key) cs ->
  exists tr d, data_ok p d /\
    exec_calls cs (boot p) =
    {| proc := state p (pair_table rk key (total cs)) [] tr; data := d; alive := true |}.
Proof.
  intros Hp. induction cs as [|c cs IH] using rev_ind; intros Hcs.
  - exists [], []. split; [by left|]. destruct Hp as [HF HT].
    unfold boot, exec_calls. simpl. f_equal. destruct p; simpl in *. by subst.
  - rewrite Forall_app, Forall_singleton in Hcs. destruct Hcs as [Hcs Hc].
    destruct (IH Hcs) as (tr & d & Hd & Hrun).
    rewrite exec_calls_snoc, Hrun. unfold total. rewrite fold_left_app. simpl.
    fold (total cs). unfold stateful_on in Hc. destruct Hc as [->|[z ->]].
    + rewrite step_flush_tidy; [|apply tidy_nil|apply tidy_pair_table|done].
      eexists _, _. split; [by do 2 apply data_ok_after|]. done.
    + rewrite step_record_stateful, record_pair_table. eauto.
Qed.

Lemma total_deltas rk key cs :
  Forall (stateful_on rk key) cs ->
  total cs = match stateful_deltas cs with
             | [] => None
             | ds => Some (sum_list ds)
             end.
Proof.
  induction cs as [|c cs IH] using rev_ind; intros Hcs; [done|].
  rewrite Forall_app, Forall_singleton in Hcs. destruct Hcs as [Hcs Hc].
  unfold total, stateful_deltas in *. rewrite fold_left_app, omap_app. simpl.
  rewrite (IH Hcs). unfold stateful_on in Hc. destruct Hc as [->|[z ->]]; simpl.
  - by rewrite app_nil_r.
  - destruct (omap _ cs) as [|d ds] eqn:E; simpl; [f_equal; lia|].
    f_equal. change (d + fold_right Z.add 0 ds) with (sum_list (d :: ds)).
    change (d + fold_right Z.add 0 (ds ++ [z])) with (sum_list ((d :: ds) ++ [z])).
    rewrite sum_list_app. unfold sum_list at 3. simpl. lia.
Qed.

(** *** [PublishThread.run] is a series of flushes *)

Lemma exec_flushes_dead n sys :
  alive sys = false -> exec_calls (replicate n Flush) sys = sys.
Proof.
  intros Hdead. induction n as [|n IH]; [done|].
  cbn [replicate exec_calls fold_left step_call]. by rewrite Hdead.
Qed.

Lemma run_ticks_flushes n : forall sys,
  alive sys = true ->
  proc (exec_calls (replicate n Flush) sys) =
    (run (ticks n (data sys)) (proc sys)).2 /\
  alive (exec_calls (replicate n Flush) sys) =
    match (run (ticks n (data sys)) (proc sys)).1 with
    | Ok _ => true
    | Raised _ => false
    end.
Proof.
  induction n as [|n IH]; intros sys Halive; [done|].
  cbn [replicate ticks]. rewrite run_bind.
  change (exec_calls (Flush :: replicate n Flush) sys)
    with (exec_calls (replicate n Flush) (step_call Flush sys)).
  cbn [step_call]. rewrite Halive.
  destruct (run (tick (data sys)) (proc sys)) as [[d|e] s'].
  - by apply (IH {| proc := s'; data := d; alive := true |}).
  - by rewrite exec_flushes_dead.
Qed.

Lemma PublishThread_run_flushes n p :
  proc (exec_calls (replicate n Flush) (boot p)) =
  (run (PublishThread_run n) {| self := p; trace := [] |}).2.
Proof. by apply (run_ticks_flushes n (boot p)). Qed.

(** * Properties of the program *)

Lemma pristine_sample : pristine sample_thread.
Proof. by split. Qed.

(** C4. Over any sequence of [recordStateful] calls for one pair of keys
    and flushes, each flush reports for the pair the sum of all the deltas
    recorded before it, whatever flushes came earlier (and reports nothing
    for it while none was recorded), and a flush, from any state, leaves
    the stateful table as it was. *)
Theorem stateful_flush_reports_cumulative_total
    (p : PublishThread) (rk key : string) (pre : list call) :
  pristine p -> Forall (stateful_on rk key) pre ->
  let before := exec_calls pre (boot p) in
  let after := step_call Flush before in
  alive after = true /\
  sent after =
    sent before ++ [Slept (publish_interval p); Connected] ++
    match stateful_deltas pre with
    | [] => []
    | ds => [envelope p rk [(key, sum_list ds)]]
    end /\
  statefull_of after = statefull_of before /\
  (forall sys, statefull_of (step_call Flush sys) = statefull_of sys).
Proof.
  intros Hp Hpre before after.
  destruct (stateful_run p rk key pre Hp Hpre) as (tr & d & Hd & Hrun).
  subst after before. rewrite Hrun.
  rewrite step_flush_tidy; [|apply tidy_nil|apply tidy_pair_table|done].
  split_and!; [done| |done|apply step_flush_statefull].
  unfold sent. simpl. rewrite reports_pair_table, (total_deltas rk key) by done.
  by destruct (stateful_deltas pre).
Qed.

Lemma stateful_flush_reports_cumulative_total_witness :
  let pre := [RecordStateful "topicB" "errors" 1; Flush] in
  pristine sample_thread /\
  Forall (stateful_on "topicB" "errors") pre /\
  sent (step_call Flush (exec_calls pre (boot sample_thread))) =
    sent (exec_calls pre (boot sample_thread)) ++
    [Slept (publish_interval sample_thread); Connected;
     envelope sample_thread "topicB" [("errors", 1)]].
Proof.
  intros pre.
  assert (Hpre : Forall (stateful_on "topicB" "errors") pre).
  { apply Forall_cons; split; [right; by exists 1|].
    apply Forall_cons; split; [by left | apply Forall_nil_2]. }
  split_and!; [apply pristine_sample | exact Hpre |].
  exact (proj1 (proj2 (stateful_flush_reports_cumulative_total
                         sample_thread "topicB" "errors" pre pristine_sample Hpre))).
Defined.

Lemma pending_snoc cs c : pending (cs ++ [c]) = pending_step (pending cs) c.
Proof. unfold pending. by rewrite fold_left_app. Qed.

Lemma pending_since_flush pre :
  pre = [] \/ last pre = Some Flush -> default 0 (pending pre) = 0.
Proof.
  intros [->|Hlast]; [done|].
  destruct pre as [|c pre _] using rev_ind; [done|].
  rewrite last_snoc in Hlast. injection Hlast as ->.
  rewrite pending_snoc. simpl. destruct (pending pre) as [v|]; [|done].
  by destruct (v =? 0).
Qed.

Lemma pending_records rk key pre ds :
  ds <> [] ->
  pending (pre ++ map (RecordStateless rk key) ds) =
  Some (default 0 (pending pre) + sum_list ds).
Proof.
  induction ds as [|d ds IH] using rev_ind; [done|]. intros _.
  rewrite map_app. cbn [map]. rewrite app_assoc, pending_snoc, sum_list_app.
  cbn [pending_step].
  destruct ds as [|d' ds].
  - simpl. rewrite app_nil_r. f_equal. unfold sum_list. simpl. lia.
  - rewrite IH by done. simpl. f_equal. unfold sum_list. simpl. lia.
Qed.

Lemma stateless_on_records rk key ds :
  Forall (stateless_on rk key) (map (RecordStateless rk key) ds).
Proof. apply Forall_map, Forall_forall. intros d _. right. by exists d. Qed.

(** C3, as the code has it. Over any sequence of [recordStateless] calls for
    one pair of keys and flushes: the flush that follows the deltas
    [d1..dn] recorded since the previous flush reports their sum; after it
    the routing key is gone when the sum is 0 and holds the key at 0
    otherwise; in the second case the next flush, with nothing recorded in
    between, still reports the routing key, with the key at 0, and only
    then removes it; the flush after that reports nothing. *)
Theorem stateless_flush_reports_sum_then_zero
    (p : PublishThread) (rk key : string) (pre : list call) (ds : list Z) :
  pristine p -> Forall (stateless_on rk key) pre ->
  pre = [] \/ last pre = Some Flush ->
  ds <> [] ->
  let before := exec_calls (pre ++ map (RecordStateless rk key) ds) (boot p) in
  let first := step_call Flush before in
  let second := step_call Flush first in
  let third := step_call Flush second in
  sent first =
    sent before ++ [Slept (publish_interval p); Connected;
                    envelope p rk [(key, sum_list ds)]] /\
  stateless_of first = (if sum_list ds =? 0 then [] else [(rk, [(key, 0)])]) /\
  sent second =
    sent first ++ [Slept (publish_interval p); Connected] ++
    (if sum_list ds =? 0 then [] else [envelope p rk [(key, 0)]]) /\
  stateless_of second = [] /\
  sent third = sent second ++ [Slept (publish_interval p); Connected] /\
  alive third = true.
Proof.
  intros Hp Hpre Hlast Hds before first second third.
  assert (Hall : Forall (stateless_on rk key) (pre ++ map (RecordStateless rk key) ds)).
  { apply Forall_app. split; [done | apply stateless_on_records]. }
  destruct (stateless_run p rk key _ Hp Hall) as (tr & d & Hd & Hrun).
  rewrite pending_records, pending_since_flush in Hrun by done.
  subst third second first before. rewrite Hrun. clear Hrun.
  rewrite Z.add_0_l.
  rewrite step_flush_tidy; [|apply tidy_pair_table|apply NoDup_nil_2|done].
  rewrite after_flush_pair_table.
  rewrite step_flush_tidy;
    [|apply tidy_pair_table|apply NoDup_nil_2|by do 2 apply data_ok_after].
  rewrite after_flush_pair_table.
  rewrite step_flush_tidy;
    [|apply tidy_pair_table|apply NoDup_nil_2|by do 4 apply data_ok_after].
  unfold sent, stateless_of. simpl.
  destruct (sum_list ds =? 0); simpl; rewrite ?app_nil_r, <- ?app_assoc; done.
Qed.

Lemma stateless_flush_reports_sum_then_zero_witness :
  let before :=
    exec_calls (map (RecordStateless "topicA" "reqs") [5; 3]) (boot sample_thread) in
  pristine sample_thread /\
  sent (step_call Flush before) =
    sent before ++ [Slept (publish_interval sample_thread); Connected;
                    envelope sample_thread "topicA" [("reqs", 8)]].
Proof.
  intros before. split; [apply pristine_sample|].
  refine (proj1 (stateless_flush_reports_sum_then_zero
                   sample_thread "topicA" "reqs" [] [5; 3] _ _ _ _)).
  - apply pristine_sample.
  - apply Forall_nil_2.
  - by left.
  - discriminate.
Defined.

(** C3 as stated fails: after the flush that reports 8 the bucket is still in
    the table, at 0, and the next flush, with nothing recorded in between,
    sends a message for "topicA". *)
Lemma quiet_flush_still_reports_routing_key :
  let first :=
    exec_calls [RecordStateless "topicA" "reqs" 5; RecordStateless "topicA" "reqs" 3;
                Flush] (boot sample_thread) in
  let second := step_call Flush first in
  stateless_of first = [("topicA", [("reqs", 0)])] /\
  sent second =
    sent first ++ [Slept (publish_interval sample_thread); Connected;
                   envelope sample_thread "topicA" [("reqs", 0)]].
Proof. by vm_compute. Qed.

(** *** What each call does to the two tables *)

Lemma stateless_after_record_stateless sys rk key v :
  stateless_of (step_call (RecordStateless rk key v) sys) =
  record_table (stateless_of sys) rk key v.
Proof.
  destruct sys as [s d a]. rewrite (state_eta s).
  by rewrite step_record_stateless.
Qed.

Lemma statefull_after_record_stateless sys rk key v :
  statefull_of (step_call (RecordStateless rk key v) sys) = statefull_of sys.
Proof.
  destruct sys as [s d a]. rewrite (state_eta s).
  by rewrite step_record_stateless.
Qed.

Lemma statefull_after_record_stateful sys rk key v :
  statefull_of (step_call (RecordStateful rk key v) sys) =
  record_table (statefull_of sys) rk key v.
Proof.
  destruct sys as [s d a]. rewrite (state_eta s).
  by rewrite step_record_stateful.
Qed.

Lemma stateless_after_record_stateful sys rk key v :
  stateless_of (step_call (RecordStateful rk key v) sys) = stateless_of sys.
Proof.
  destruct sys as [s d a]. rewrite (state_eta s).
  by rewrite step_record_stateful.
Qed.

Lemma stateless_after_flush p sys :
  orderly p sys ->
  tidy (stateless_of sys) /\
  stateless_of (step_call Flush sys) = after_flush (stateless_of sys).
Proof.
  intros (Ha & Hd & F & T & tr & Hp & HF & HT).
  destruct sys as [s d a]. cbn [proc data alive] in *. subst s a.
  rewrite step_flush_tidy by (done || apply HF). done.
Qed.

Lemma since_flush_snoc cs c :
  since_flush (cs ++ [c]) =
  match c with
  | Flush => []
  | _ => since_flush cs ++ [c]
  end.
Proof. unfold since_flush. by rewrite fold_left_app. Qed.

(** C8, as the code has it. After any sequence of calls made one at a
    time: a key present in the stateful table had a delta recorded for it;
    a key present in the stateless table had a delta recorded for it since
    the last flush, or else it stands at 0 because the last flush reported
    it with a value other than 0 and kept it. *)
Theorem presence_implies_recorded_or_reset
    (p : PublishThread) (cs : list call) (rk key : string) :
  pristine p ->
  let sys := exec_calls cs (boot p) in
  (is_Some (counter (statefull_of sys) rk key) ->
   exists d, RecordStateful rk key d ∈ cs) /\
  (is_Some (counter (stateless_of sys) rk key) ->
   (exists d, RecordStateless rk key d ∈ since_flush cs) \/
   (counter (stateless_of sys) rk key = Some 0 /\
    exists pre v, cs = pre ++ Flush :: since_flush cs /\ v <> 0 /\
      counter (stateless_of (exec_calls pre (boot p))) rk key = Some v)).
Proof.
  intros Hp. induction cs as [|c cs [IHf IHl]] using rev_ind.
  - destruct Hp as [HF HT]. unfold statefull_of, stateless_of. simpl.
    rewrite HF, HT. split; intros [x Hx]; done.
  - pose proof (orderly_exec_calls p cs _ (orderly_boot p Hp)) as Hord.
    cbv zeta in *. rewrite exec_calls_snoc, since_flush_snoc.
    set (sys := exec_calls cs (boot p)) in *.
    destruct c as [rk' key' v'|rk' key' v'|].
    + rewrite statefull_after_record_stateful, stateless_after_record_stateful.
      split.
      * destruct (decide ((rk, key) = (rk', key'))) as [[= <- <-]|Hne].
        { intros _. exists v'. apply elem_of_app. right. apply list_elem_of_here. }
        rewrite counter_record_other by done. intros H.
        destruct (IHf H) as [d Hd]. exists d. apply elem_of_app. by left.
      * intros H. destruct (IHl H) as [[d Hd]|(H0 & pre & v & Hcs & Hv & Hpre)].
        { left. exists d. apply elem_of_app. by left. }
        right. split; [done|]. exists pre, v. split_and!; [|done..].
        rewrite Hcs at 1. by rewrite <- app_assoc.
    + rewrite statefull_after_record_stateless, stateless_after_record_stateless.
      split.
      * intros H. destruct (IHf H) as [d Hd]. exists d. apply elem_of_app. by left.
      * destruct (decide ((rk, key) = (rk', key'))) as [[= <- <-]|Hne].
        { intros _. left. exists v'. apply elem_of_app. right. apply list_elem_of_here. }
        rewrite counter_record_other by done. intros H.
        destruct (IHl H) as [[d Hd]|(H0 & pre & v & Hcs & Hv & Hpre)].
        { left. exists d. apply elem_of_app. by left. }
        right. split; [done|]. exists pre, v. split_and!; [|done..].
        rewrite Hcs at 1. by rewrite <- app_assoc.
    + rewrite step_flush_statefull.
      destruct (stateless_after_flush p sys Hord) as [Htidy ->].
      split.
      * intros H. destruct (IHf H) as [d Hd]. exists d. apply elem_of_app. by left.
      * intros [x Hx]. right.
        destruct (counter_after_flush _ _ _ _ Htidy Hx) as (-> & v & Hv & Hbefore).
        split; [done|]. by exists cs, v.
Qed.

Lemma presence_implies_recorded_or_reset_witness :
  let cs := [RecordStateless "topicA" "reqs" 5; Flush; RecordStateful "topicB" "errors" 1] in
  pristine sample_thread /\
  (is_Some (counter (statefull_of (exec_calls cs (boot sample_thread))) "topicB" "errors") ->
   exists d, RecordStateful "topicB" "errors" d ∈ cs).
Proof.
  intros cs. split; [apply pristine_sample|].
  exact (proj1 (presence_implies_recorded_or_reset
                  sample_thread cs "topicB" "errors" pristine_sample)).
Defined.

(** C8 as stated fails for the stateless table: after a delta of 5 and a
    flush the key is still present, at 0, and nothing was recorded since
    that flush. *)
Lemma flushed_key_present_without_delta :
  let cs := [RecordStateless "topicA" "reqs" 5; Flush] in
  counter (stateless_of (exec_calls cs (boot sample_thread))) "topicA" "reqs" = Some 0 /\
  since_flush cs = [].
Proof. by vm_compute. Qed.

(** C2 fails on the code. With a bucket already there for the routing key,
    recording a metric key that is not in it raises [KeyError] and adds
    nothing: the test for the metric key sits inside the branch that
    creates the bucket, so it never runs for a bucket that exists. *)
Theorem second_metric_key_raises :
  run (publish_stateless "topicA" "reqs" 5;; publish_stateless "topicA" "errors" 1)
      (state sample_thread [] [] []) =
    (Raised (KeyError "errors"),
     state sample_thread [] [("topicA", [("reqs", 5)])] []) /\
  run (publish_statefull "topicA" "reqs" 5;; publish_statefull "topicA" "errors" 1)
      (state sample_thread [] [] []) =
    (Raised (KeyError "errors"),
     state sample_thread [("topicA", [("reqs", 5)])] [] []).
Proof. by vm_compute. Qed.

(** C9, as the code has it. An empty routing key or metric key is a key
    like any other: where the routing key has no bucket yet the call
    creates the counter and leaves it at the delta; and no sequence of
    recording calls, made one at a time, makes a later flush raise. *)
Theorem empty_keys_are_recorded (rk key : string) (d : Z) (s : Proc) :
  rk = "" \/ key = "" ->
  (dict_get (table_of Statefull s) rk = None ->
   run (publish_stateful_metric rk key d) s =
   (Ok tt, set_table Statefull (table_of Statefull s ++ [(rk, [(key, d)])]) s)) /\
  (dict_get (table_of Stateless s) rk = None ->
   run (publish_stateless_metric rk key d) s =
   (Ok tt, set_table Stateless (table_of Stateless s ++ [(rk, [(key, d)])]) s)) /\
  (forall p cs, pristine p -> alive (exec_calls cs (boot p)) = true).
Proof.
  intros _. split_and!.
  - intros H. unfold publish_stateful_metric.
    rewrite publish_statefull_body. by apply record_into_new.
  - intros H. unfold publish_stateless_metric.
    rewrite publish_stateless_body. by apply record_into_new.
  - intros p cs Hp.
    by destruct (orderly_exec_calls p cs _ (orderly_boot p Hp)) as [Ha _].
Qed.

Lemma empty_keys_are_recorded_witness :
  run (publish_stateless_metric "" "reqs" 2) (state sample_thread [] [] []) =
  (Ok tt, state sample_thread [] [("", [("reqs", 2)])] []).
Proof.
  refine (proj1 (proj2 (empty_keys_are_recorded "" "reqs" 2
                          (state sample_thread [] [] []) _)) _).
  - by left.
  - reflexivity.
Defined.

(** C9 as stated fails: a call with both keys empty is accepted and changes
    the table. *)
Lemma empty_keys_change_the_table :
  run (publish_stateless_metric "" "" 1) (state sample_thread [] [] []) =
    (Ok tt, state sample_thread [] [("", [("", 1)])] []) /\
  run (publish_stateful_metric "" "" 1) (state sample_thread [] [] []) =
    (Ok tt, state sample_thread [("", [("", 1)])] [] []).
Proof. by vm_compute. Qed.

(** C6. A bucket that lists a key at 0 before another key makes the tick
    delete the routing key on the first key and raise [KeyError] on the
    second: nothing is published.  Such a bucket arises when two recording
    calls for a new routing key overlap: both find the routing key missing,
    the second replaces the bucket of the first, and both keys end up in
    it.  The tick that follows reports the two counters and resets them,
    and the tick after that, whichever key it visits first, finds it at 0
    and raises. *)
Theorem zero_first_bucket_aborts_flush :
  (forall p F rk k0 k1 v1 more tr d,
     run (tick d) (state p F [(rk, (k0, 0) :: (k1, v1) :: more)] tr) =
     (Raised (KeyError rk),
      state p F [] (tr ++ [Slept (publish_interval p); Connected]))) /\
  (exists schedule d tr,
     interleave schedule
       ([publish_stateless_metric "topicA" "reqs" 5;
         publish_stateless_metric "topicA" "errors" 7],
        state sample_thread [] [] []) =
     ([Ret tt; Ret tt],
      state sample_thread [] [("topicA", [("reqs", 5); ("errors", 7)])] []) /\
     run (tick []) (state sample_thread [] [("topicA", [("reqs", 5); ("errors", 7)])] []) =
     (Ok d, state sample_thread [] [("topicA", [("reqs", 0); ("errors", 0)])] tr) /\
     run (tick d) (state sample_thread [] [("topicA", [("reqs", 0); ("errors", 0)])] tr) =
     (Raised (KeyError "topicA"),
      state sample_thread [] [] (tr ++ [Slept (publish_interval sample_thread); Connected]))).
Proof.
  split.
  - intros p F rk k0 k1 v1 more tr d. unfold tick. state_simpl.
    change (dict_keys [(rk, (k0, 0) :: (k1, v1) :: more)]) with [rk].
    cbn [flush_stateless]. state_simpl.
    change (dict_keys ((k0, 0) :: (k1, v1) :: more))
      with (k0 :: k1 :: dict_keys more).
    cbn [reset_counters]. state_simpl.
    change (0 =? 0) with true. state_simpl.
    by rewrite <- app_assoc.
  - exists [0; 1; 0; 1; 0; 0; 0; 0; 1; 1; 1; 1]%nat.
    eexists _, _. split_and!; by vm_compute.
Qed.

(** *** Every delta is reported once, for calls made one at a time *)

Lemma reported_app me rk key evs1 evs2 :
  reported me rk key (evs1 ++ evs2) =
  reported me rk key evs1 + reported me rk key evs2.
Proof. unfold reported. by rewrite map_app, sum_list_app. Qed.

Lemma reported_cons me rk key e evs :
  reported me rk key (e :: evs) = reported_value me rk key e + reported me rk key evs.
Proof. done. Qed.

(** Messages for other routing keys carry nothing for the pair. *)
Lemma reported_reports_absent p rk key t :
  rk ∉ dict_keys t -> reported (ip p) rk key (reports p t) = 0.
Proof.
  unfold dict_keys. induction t as [|[rk0 b] t IH]; csimpl; [done|].
  rewrite not_elem_of_cons. intros [Hne Hni].
  rewrite reported_cons, IH by done. simpl.
  rewrite decide_False by congruence. done.
Qed.

(** The messages of one table carry, for a pair, the counter of the pair. *)
Lemma reported_reports p rk key t :
  NoDup (dict_keys t) ->
  reported (ip p) rk key (reports p t) = default 0 (counter t rk key).
Proof.
  unfold dict_keys. induction t as [|[rk0 b] t IH]; csimpl; [done|].
  rewrite NoDup_cons. intros [Hni Hnd].
  rewrite reported_cons. simpl. unfold counter at 2. simpl.
  destruct (decide (rk0 = rk)) as [->|Hne].
  - rewrite (reported_reports_absent p rk key t) by done.
    unfold counter. rewrite dict_get_head. lia.
  - by rewrite IH.
Qed.

Lemma dict_keys_record_table t rk key value :
  dict_keys (record_table t rk key value) = dict_keys t \/
  dict_keys (record_table t rk key value) = dict_keys t ++ [rk].
Proof.
  unfold record_table. destruct (dict_get t rk) as [b|] eqn:Hb.
  - left. destruct (dict_get b key); [by erewrite dict_keys_set | done].
  - right. by rewrite dict_keys_app.
Qed.

Lemma counter_record_same t rk key value :
  dict_get t rk = None \/ is_Some (counter t rk key) ->
  counter (record_table t rk key value) rk key =
  Some (default 0 (counter t rk key) + value).
Proof.
  unfold record_table, counter. intros [Hnone|[old Hold]].
  - rewrite Hnone. apply dict_get_None in Hnone.
    rewrite dict_get_app_r by done. by rewrite !dict_get_head.
  - destruct (dict_get t rk) as [b|]; [|done]. rewrite Hold.
    by rewrite !dict_get_set_eq.
Qed.

(** What a recording call adds to a counter is what [landed] says. *)
Lemma record_lands w rk' key' d rk key s :
  default 0 (counter (record_table (table_of w s) rk' key' d) rk key) =
  default 0 (counter (table_of w s) rk key) +
  (if decide ((rk', key') = (rk, key)) then
     match (run (record_into w rk' key' d) s).1 with
     | Ok _ => d
     | Raised _ => 0
     end
   else 0).
Proof.
  destruct (decide ((rk', key') = (rk, key))) as [[= -> ->]|Hne].
  - rewrite run_record_into. cbn [fst].
    destruct (dict_get (table_of w s) rk) as [b|] eqn:Hb.
    + destruct (dict_get b key) as [old|] eqn:Hold.
      * rewrite counter_record_same; [simpl; lia|].
        right. unfold counter. rewrite Hb, Hold. by eexists.
      * unfold record_table. rewrite Hb, Hold. lia.
    + rewrite counter_record_same by (by left). simpl. lia.
  - rewrite counter_record_other by congruence. lia.
Qed.

Lemma sent_after_record sys c :
  c <> Flush -> sent (step_call c sys) = sent sys.
Proof.
  destruct sys as [s d a]. rewrite (state_eta s). destruct c as [rk k v|rk k v|]; [| |done].
  - by rewrite step_record_stateful.
  - by rewrite step_record_stateless.
Qed.

Lemma sent_after_flush p sys :
  orderly p sys ->
  sent (step_call Flush sys) =
  sent sys ++ [Slept (publish_interval p); Connected]
           ++ reports p (stateless_of sys) ++ reports p (statefull_of sys).
Proof.
  intros (Ha & Hd & F & T & tr & Hp & HF & HT).
  destruct sys as [s d a]. cbn [proc data alive] in *. subst s a.
  rewrite step_flush_tidy by (done || apply HF). done.
Qed.

(** The stateful counter of a pair is the sum of what landed on it. *)
Lemma statefull_counter_accepted rk key cs : forall sys,
  default 0 (counter (statefull_of (exec_calls cs sys)) rk key) =
  default 0 (counter (statefull_of sys) rk key) + accepted Statefull rk key cs sys.
Proof.
  induction cs as [|c cs IH]; intros sys; [simpl; lia|].
  change (exec_calls (c :: cs) sys) with (exec_calls cs (step_call c sys)).
  rewrite IH. cbn [accepted]. destruct c as [rk' key' d|rk' key' d|].
  - rewrite statefull_after_record_stateful.
    pose proof (record_lands Statefull rk' key' d rk key (proc sys)) as H.
    unfold statefull_of, landed, publish_stateful_metric in *.
    rewrite publish_statefull_body. cbn [table_of] in H. lia.
  - rewrite statefull_after_record_stateless. simpl. lia.
  - rewrite step_flush_statefull. simpl. lia.
Qed.

(** What was reported for a pair and what is pending for it grow together
    by what landed, as long as no stateful bucket shares the routing key. *)
Lemma stateless_reported_accepted p rk key cs : forall sys,
  orderly p sys -> rk ∉ dict_keys (statefull_of sys) ->
  Forall (spares_routing_key rk) cs ->
  reported (ip p) rk key (sent (exec_calls cs sys)) +
  default 0 (counter (stateless_of (exec_calls cs sys)) rk key) =
  reported (ip p) rk key (sent sys) +
  default 0 (counter (stateless_of sys) rk key) +
  accepted Stateless rk key cs sys.
Proof.
  induction cs as [|c cs IH]; intros sys Hord Hrk Hcs; [simpl; lia|].
  apply Forall_cons in Hcs as [Hc Hcs].
  change (exec_calls (c :: cs) sys) with (exec_calls cs (step_call c sys)).
  pose proof (orderly_step p c sys Hord) as Hord'.
  cbn [accepted]. destruct c as [rk' key' d|rk' key' d|].
  - rewrite IH; [|done| |done].
    + rewrite sent_after_record by done.
      rewrite stateless_after_record_stateful. simpl. lia.
    + rewrite statefull_after_record_stateful. simpl in Hc.
      destruct (dict_keys_record_table (statefull_of sys) rk' key' d) as [->| ->];
        [done|].
      rewrite not_elem_of_app. split; [done|].
      intros ->%list_elem_of_singleton. done.
  - rewrite IH; [|done| |done].
    + rewrite sent_after_record by done.
      rewrite stateless_after_record_stateless.
      pose proof (record_lands Stateless rk' key' d rk key (proc sys)) as H.
      unfold stateless_of, landed, publish_stateless_metric in *.
      rewrite publish_stateless_body. cbn [table_of] in H. lia.
    + by rewrite statefull_after_record_stateless.
  - rewrite IH; [|done| |done].
    + destruct (stateless_after_flush p sys Hord) as [[Hnd Hs] Hafter].
      rewrite (sent_after_flush p sys Hord), Hafter.
      rewrite !reported_app, (reported_reports p rk key _ Hnd).
      rewrite (reported_reports_absent p rk key (statefull_of sys)) by done.
      change (reported (ip p) rk key [Slept (publish_interval p); Connected]) with 0.
      assert (Hzero : default 0 (counter (after_flush (stateless_of sys)) rk key) = 0).
      { destruct (counter (after_flush (stateless_of sys)) rk key) as [x|] eqn:Hx;
          [|done].
        by destruct (counter_after_flush _ _ _ _ (conj Hnd Hs) Hx) as [-> _]. }
      rewrite Hzero. simpl. lia.
    + by rewrite step_flush_statefull.
Qed.

(** C5, as the code has it. The flush takes no lock; what holds is for
    calls that do not overlap it.  For any sequence of recording calls and
    flushes made one at a time on a fresh thread, and any pair of keys:
    the stateful counter of the pair is the sum of the deltas of the
    [recordStateful] calls for it that returned normally, whatever flushes
    came in between, and a flush publishes every bucket of both tables as
    it stands, so a stateful delta is reported again by every later flush;
    and when no stateful metric is recorded under the routing key, the
    values reported for the pair so far and the value still in the
    stateless table add up to the sum of the deltas of the
    [recordStateless] calls for it that returned normally, so none of
    these is lost or counted twice. *)
Theorem sequential_flushes_report_every_delta_once
    (p : PublishThread) (rk key : string) (cs : list call) :
  pristine p ->
  let sys := exec_calls cs (boot p) in
  default 0 (counter (statefull_of sys) rk key) =
    accepted Statefull rk key cs (boot p) /\
  sent (step_call Flush sys) =
    sent sys ++ [Slept (publish_interval p); Connected]
             ++ reports p (stateless_of sys) ++ reports p (statefull_of sys) /\
  (Forall (spares_routing_key rk) cs ->
   reported (ip p) rk key (sent sys) +
   default 0 (counter (stateless_of sys) rk key) =
   accepted Stateless rk key cs (boot p)).
Proof.
  intros Hp sys. pose proof Hp as [HF HT]. split_and!.
  - unfold sys. rewrite statefull_counter_accepted.
    unfold statefull_of at 1. simpl. by rewrite HF.
  - apply sent_after_flush. apply orderly_exec_calls. by apply orderly_boot.
  - intros Hcs. unfold sys.
    rewrite (stateless_reported_accepted p rk key cs (boot p));
      [|by apply orderly_boot| |done].
    + unfold stateless_of, sent. simpl. by rewrite HT.
    + unfold statefull_of. simpl. rewrite HF. apply not_elem_of_nil.
Qed.

Lemma sequential_flushes_report_every_delta_once_witness :
  let cs := [RecordStateless "topicA" "reqs" 5; RecordStateful "topicB" "errors" 1;
             Flush; RecordStateless "topicA" "bytes" 9; RecordStateless "topicA" "reqs" 3;
             Flush] in
  pristine sample_thread /\
  Forall (spares_routing_key "topicA") cs /\
  reported (ip sample_thread) "topicA" "reqs"
    (sent (exec_calls cs (boot sample_thread))) +
  default 0 (counter (stateless_of (exec_calls cs (boot sample_thread)))
               "topicA" "reqs") = 8.
Proof.
  intros cs.
  assert (Hcs : Forall (spares_routing_key "topicA") cs).
  { repeat (apply Forall_cons; split; [done|]). apply Forall_nil_2. }
  split_and!; [apply pristine_sample | exact Hcs |].
  exact (proj2 (proj2 (sequential_flushes_report_every_delta_once
                         sample_thread "topicA" "reqs" cs pristine_sample)) Hcs).
Defined.

(** C5 as stated fails. Thread 0 is the publish loop, thread 1 a caller
    that records 5 and then 3.  The 3 is added after the flush copied the
    bucket and before it reset the counter: that flush reports 5, the next
    one reports 0, and the 3 is in neither.  And for the stateful table the
    totals over two flushes are not the deltas recorded even without any
    overlap: a delta of 5 followed by two flushes is reported by both, 10
    in all. *)
Lemma delta_recorded_during_flush_is_lost :
  let threads := [tick [];; Ret tt;
                  publish_stateless_metric "topicA" "reqs" 5;;
                  publish_stateless_metric "topicA" "reqs" 3] in
  let schedule := [1; 1; 1; 1; 1; 1; 0; 0; 0; 0; 0; 0; 1; 1; 1; 0; 0; 0; 0]%nat in
  let after := interleave schedule (threads, state sample_thread [] [] []) in
  after.1 = [Ret tt; Ret tt] /\
  trace after.2 =
    [Slept (publish_interval sample_thread); Connected;
     envelope sample_thread "topicA" [("reqs", 5)]] /\
  trace (run (tick [("10.0.0.1:8080", [("reqs", 5)])]) after.2).2 =
    trace after.2 ++
    [Slept (publish_interval sample_thread); Connected;
     envelope sample_thread "topicA" [("reqs", 0)]] /\
  reported (ip sample_thread) "topicA" "reqs"
    (trace (run (tick [("10.0.0.1:8080", [("reqs", 5)])]) after.2).2) = 5 /\
  reported (ip sample_thread) "topicB" "errors"
    (sent (exec_calls [RecordStateful "topicB" "errors" 5; Flush; Flush]
                      (boot sample_thread))) = 10.
Proof. by vm_compute. Qed.

(** *** The control loop *)

Lemma lookup_fresh {A} (d : A) (h : list A) : (h ++ [d]) !! length h = Some d.
Proof. rewrite lookup_app_r by done. by rewrite Nat.sub_diag. Qed.

Lemma control_iteration_ok fetched c :
  control_iteration (Ok fetched) c =
  (Ok tt,
   {| thread := set_metric_list (length (memory c)) (thread c);
      memory := memory c ++ [fetched];
      control_trace := control_trace c ++
        [HGetAll "metrics"; ControlSlept (control_interval (thread c))] |}).
Proof. unfold control_iteration, alloc. by rewrite <- app_assoc. Qed.

Lemma cached_after_fetch fetched c :
  cached (control_iteration (Ok fetched) c).2 = Some fetched.
Proof.
  rewrite control_iteration_ok. unfold cached. simpl. apply lookup_fresh.
Qed.

Lemma ControlThread_run_ok fetched : forall c,
  exists c',
    ControlThread_run (map Ok fetched) c = (Ok tt, c') /\
    control_trace c' =
      control_trace c ++
      flat_map (fun _ => [HGetAll "metrics"; ControlSlept (control_interval (thread c))])
               fetched /\
    cached c' = match last fetched with Some f => Some f | None => cached c end /\
    control_interval (thread c') = control_interval (thread c).
Proof.
  induction fetched as [|f fetched IH]; intros c.
  - exists c. simpl. by rewrite app_nil_r.
  - cbn [map ControlThread_run]. rewrite control_iteration_ok.
    destruct (IH {| thread := set_metric_list (length (memory c)) (thread c);
                    memory := memory c ++ [f];
                    control_trace := control_trace c ++
                      [HGetAll "metrics"; ControlSlept (control_interval (thread c))] |})
      as (c' & Hrun & Htr & Hcache & Hint).
    exists c'. split_and!; [done| | |done].
    + rewrite Htr. simpl. by rewrite <- app_assoc.
    + rewrite Hcache. destruct fetched as [|f' fetched].
      * simpl. unfold cached. simpl. apply lookup_fresh.
      * rewrite last_cons_cons.
        destruct (last (f' :: fetched)) eqn:E; [done|]. by apply last_None in E.
Qed.

(** C10. The loop fetches before it sleeps; after every fetch it sleeps for
    [control_interval], which is 10 unless the configuration sets it; and
    each fetch leaves the cache holding exactly the fetched hash, whatever
    it held before. *)
Theorem control_loop_fetches_then_sleeps
    (creator_daemon : bool) (conf : gmap string pyval) (h : heap)
    (fetched : list metric_table) :
  let c0 := control_boot creator_daemon conf h in
  control_interval (thread c0) = default (VInt 10) (conf !! "control_interval") /\
  cached c0 = Some ∅ /\
  (exists c,
     ControlThread_run (map Ok fetched) c0 = (Ok tt, c) /\
     control_trace c =
       flat_map (fun _ => [HGetAll "metrics";
                           ControlSlept (control_interval (thread c0))]) fetched /\
     cached c = Some (default ∅ (last fetched))) /\
  (forall c f, cached (control_iteration (Ok f) c).2 = Some f).
Proof.
  intros c0. split_and!.
  - done.
  - unfold c0, control_boot, ControlThread_init, cached, alloc. simpl.
    apply lookup_fresh.
  - destruct (ControlThread_run_ok fetched c0) as (c & Hrun & Htr & Hcache & _).
    exists c. split_and!; [done|done|].
    rewrite Hcache. destruct (last fetched); [done|].
    unfold c0, control_boot, ControlThread_init, cached, alloc. simpl.
    apply lookup_fresh.
  - intros c f. apply cached_after_fetch.
Qed.

(** *** The facade *)

(** C7, as the code has it. [get_metrics] hands out the address the thread
    holds, not a copy: a write through the returned value is a write to
    the cached table, while a later fetch stores its hash in a new dict
    and leaves the returned one as it was. *)
Theorem get_metrics_returns_live_table
    (this : CrystalIntrospectionControl) (h : heap) (tr : list control_event)
    (fetched : metric_table) (k v : string) :
  is_Some (h !! get_metrics this) ->
  let c := {| thread := control_thread this; memory := h; control_trace := tr |} in
  let returned := get_metrics this in
  returned = metric_list (thread c) /\
  cached {| thread := control_thread this;
            memory := heap_setitem returned k v h;
            control_trace := tr |} = (fun d => <[k := v]> d) <$> cached c /\
  memory (control_iteration (Ok fetched) c).2 !! returned = h !! returned /\
  cached (control_iteration (Ok fetched) c).2 = Some fetched /\
  metric_list (thread (control_iteration (Ok fetched) c).2) <> returned.
Proof.
  intros Hvalid c returned. split_and!.
  - done.
  - unfold cached, heap_setitem. simpl. apply list_lookup_alter_eq.
  - rewrite control_iteration_ok. simpl.
    apply lookup_app_l. by apply lookup_lt_is_Some.
  - apply cached_after_fetch.
  - rewrite control_iteration_ok. simpl.
    apply lookup_lt_is_Some in Hvalid. unfold returned, get_metrics in *.
    intros Heq. rewrite Heq in Hvalid. lia.
Qed.

Lemma get_metrics_returns_live_table_witness :
  is_Some (([∅] : heap) !! get_metrics sample_instance) /\
  cached {| thread := control_thread sample_instance;
            memory := heap_setitem (get_metrics sample_instance) "hits" "1" [∅];
            control_trace := [] |} =
  (fun d => <["hits" := "1"]> d) <$>
    cached {| thread := control_thread sample_instance;
              memory := [∅]; control_trace := [] |}.
Proof.
  assert (Hvalid : is_Some (([∅] : heap) !! get_metrics sample_instance))
    by (by eexists).
  split; [exact Hvalid|].
  exact (proj1 (proj2 (get_metrics_returns_live_table
                         sample_instance [∅] [] ∅ "hits" "1" Hvalid))).
Defined.

(** C7 as stated fails: the returned value is the cached dict itself, and
    a write through it changes what the thread holds. *)
Lemma write_through_get_metrics_reaches_cache :
  exists this h,
    CrystalIntrospectionControl_init no_digits false sample_conf
      {| logger_name := "proxy-server" |} [] = (Ok this, h) /\
    get_metrics this = metric_list (control_thread this) /\
    h !! metric_list (control_thread this) = Some ∅ /\
    heap_setitem (get_metrics this) "hits" "1" h !! metric_list (control_thread this) =
      Some {["hits" := "1"]}.
Proof. eexists _, _. split; [reflexivity|]. by vm_compute. Qed.

(** *** The singleton *)

Section Singleton.
Variable parse_int : string -> result Z.
Variable creator_daemon : bool.

Lemma init_leaves_threads_unstarted conf log h this h' :
  CrystalIntrospectionControl_init parse_int creator_daemon conf log h = (Ok this, h') ->
  threads_started this = false /\
  control_started (control_thread this) = false /\
  publish_started (publish_thread this) = false /\
  control_daemon (control_thread this) = true /\
  publish_daemon (publish_thread this) = true.
Proof.
  unfold CrystalIntrospectionControl_init, ControlThread_init, alloc.
  destruct (PublishThread_init parse_int creator_daemon conf) as [pt|e] eqn:Hpt;
    [|done].
  intros [= <- <-]. simpl. split_and!; try done.
  unfold PublishThread_init, result_bind in Hpt.
  repeat match type of Hpt with
         | context [match ?x with _ => _ end] => destruct x; try done
         end.
  by injection Hpt as <-.
Qed.

Lemma Instance_again args i w :
  is_Some (kw_log args) -> singleton_instance w = Some i ->
  Instance parse_int creator_daemon args w =
  (Ok i, info "Crystal - Singleton instance of introspection control already created" w).
Proof. intros [log Hlog] Hi. unfold Instance. by rewrite Hlog, Hi. Qed.

Lemma Instances_again again : forall i w,
  Forall (fun a => is_Some (kw_log a)) again -> singleton_instance w = Some i ->
  Forall (fun r => r = Ok i) (Instances parse_int creator_daemon again w).1 /\
  objects (Instances parse_int creator_daemon again w).2 = objects w /\
  dicts (Instances parse_int creator_daemon again w).2 = dicts w /\
  singleton_instance (Instances parse_int creator_daemon again w).2 = Some i.
Proof.
  induction again as [|a again IH]; intros i w Hall Hi.
  - simpl. split_and!; [apply Forall_nil_2|done..].
  - apply Forall_cons in Hall as [Ha Hall]. cbn [Instances].
    rewrite (Instance_again a i w Ha Hi).
    destruct (IH i (info "Crystal - Singleton instance of introspection control already created" w)
                Hall Hi) as (Hrs & Hobj & Hd & Hs).
    destruct (Instances parse_int creator_daemon again _) as [rs w'].
    simpl in *. split_and!; [|done..]. by apply Forall_cons.
Qed.
End Singleton.

(** C1, as the code has it. The first access constructs the instance, once:
    it creates the two threads as daemons and starts neither
    ([threads_started] is False); every later access that passes a logger
    returns that same instance and constructs nothing. *)
Theorem instance_constructs_once_unstarted
    (parse_int : string -> result Z) (creator_daemon : bool)
    (args : Kwargs) (w : World) (i : nat) (w1 : World) (again : list Kwargs) :
  singleton_instance w = None ->
  Instance parse_int creator_daemon args w = (Ok i, w1) ->
  Forall (fun a => is_Some (kw_log a)) again ->
  (exists this,
     objects w1 = objects w ++ [this] /\
     objects w1 !! i = Some this /\
     threads_started this = false /\
     control_started (control_thread this) = false /\
     publish_started (publish_thread this) = false /\
     control_daemon (control_thread this) = true /\
     publish_daemon (publish_thread this) = true) /\
  singleton_instance w1 = Some i /\
  Forall (fun r => r = Ok i) (Instances parse_int creator_daemon again w1).1 /\
  objects (Instances parse_int creator_daemon again w1).2 = objects w1.
Proof.
  intros Hnone Hfirst Hagain.
  unfold Instance in Hfirst. rewrite Hnone in Hfirst.
  destruct (kw_log args) as [log|]; [|done].
  destruct (kw_conf args) as [conf|]; [|done].
  destruct (CrystalIntrospectionControl_init _ _ _ _ _) as [[this|e] h] eqn:Hinit;
    [|done].
  injection Hfirst as <- <-. simpl.
  destruct (init_leaves_threads_unstarted _ _ _ _ _ _ _ Hinit)
    as (H1 & H2 & H3 & H4 & H5).
  split_and!.
  - exists this. split_and!; try done. apply lookup_fresh.
  - done.
  - by apply Instances_again.
  - by apply (Instances_again parse_int creator_daemon again (length (objects w))).
Qed.

Lemma instance_constructs_once_unstarted_witness :
  let w1 := (Instance no_digits false sample_kwargs empty_world).2 in
  singleton_instance empty_world = None /\
  Forall (fun r => r = Ok 0%nat)
    (Instances no_digits false [sample_kwargs; sample_kwargs] w1).1 /\
  objects (Instances no_digits false [sample_kwargs; sample_kwargs] w1).2 = objects w1.
Proof.
  intros w1.
  assert (Hagain : Forall (fun a => is_Some (kw_log a)) [sample_kwargs; sample_kwargs]).
  { apply Forall_cons; split; [by eexists|].
    apply Forall_cons; split; [by eexists | apply Forall_nil_2]. }
  assert (Hfirst : Instance no_digits false sample_kwargs empty_world = (Ok 0%nat, w1))
    by (by vm_compute).
  split; [reflexivity|].
  exact (proj2 (proj2 (instance_constructs_once_unstarted
                         no_digits false sample_kwargs empty_world 0%nat w1
                         [sample_kwargs; sample_kwargs] eq_refl Hfirst Hagain))).
Defined.

(** C1 as stated fails: the first access returns an instance whose threads
    were created and not started. *)
Lemma first_access_starts_no_thread :
  exists this w1,
    Instance no_digits false sample_kwargs empty_world = (Ok 0%nat, w1) /\
    objects w1 = [this] /\
    threads_started this = false /\
    control_started (control_thread this) = false /\
    publish_started (publish_thread this) = false.
Proof. eexists _, _. split; [reflexivity|]. by vm_compute. Qed.

(** * Further properties of the recording methods *)

Lemma method_body w rk key value :
  match w with
  | Stateless => publish_stateless
  | Statefull => publish_statefull
  end rk key value = record_into w rk key value.
Proof. by destruct w. Qed.

(** X1. A recording call for a routing key that has no bucket yet, or for a
    metric key that is already in the bucket, returns normally and leaves
    the counter at its old value (0 when it was absent) plus the delta. *)
Theorem record_adds_delta (w : which) (rk key : string) (value : Z) (s : Proc) :
  dict_get (table_of w s) rk = None \/ is_Some (counter (table_of w s) rk key) ->
  let method := match w with
                | Stateless => publish_stateless
                | Statefull => publish_statefull
                end in
  (run (method rk key value) s).1 = Ok tt /\
  counter (table_of w (run (method rk key value) s).2) rk key =
    Some (default 0 (counter (table_of w s) rk key) + value).
Proof.
  intros H method. unfold method. rewrite method_body, run_record_into.
  cbn [fst snd]. rewrite table_of_set_table. split.
  - unfold counter in H. destruct H as [->|[old Hold]]; [done|].
    destruct (dict_get (table_of w s) rk) as [b|]; [|done]. by rewrite Hold.
  - by apply counter_record_same.
Qed.

Lemma record_adds_delta_witness :
  counter (table_of Stateless
             (run (publish_stateless "topicA" "reqs" 4)
                  (state sample_thread [] [("topicA", [("reqs", 3)])] [])).2)
          "topicA" "reqs" = Some 7.
Proof.
  refine (proj2 (record_adds_delta Stateless "topicA" "reqs" 4
                   (state sample_thread [] [("topicA", [("reqs", 3)])] []) _)).
  right. by eexists.
Defined.

(** X2. A recording call changes one counter of one table: the other
    table, the messages sent so far and every other counter of its own
    table are as before, whether the call returns or raises. *)
Theorem record_touches_one_counter
    (rk key : string) (value : Z) (s : Proc) (rk' key' : string) :
  (rk', key') <> (rk, key) ->
  let after_stateless := (run (publish_stateless rk key value) s).2 in
  let after_statefull := (run (publish_statefull rk key value) s).2 in
  table_of Statefull after_stateless = table_of Statefull s /\
  table_of Stateless after_statefull = table_of Stateless s /\
  trace after_stateless = trace s /\
  trace after_statefull = trace s /\
  counter (table_of Stateless after_stateless) rk' key' =
    counter (table_of Stateless s) rk' key' /\
  counter (table_of Statefull after_statefull) rk' key' =
    counter (table_of Statefull s) rk' key'.
Proof.
  intros Hne after_stateless after_statefull.
  unfold after_stateless, after_statefull.
  rewrite publish_stateless_body, publish_statefull_body, !run_record_into.
  cbn [snd]. split_and!; try done.
  - rewrite table_of_set_table. by apply counter_record_other.
  - rewrite table_of_set_table. by apply counter_record_other.
Qed.

Lemma record_touches_one_counter_witness :
  let s := state sample_thread [("topicB", [("errors", 1)])]
                 [("topicA", [("reqs", 3)])] [] in
  ("topicA", "reqs") <> ("topicB", "reqs") /\
  counter (table_of Stateless (run (publish_stateless "topicB" "reqs" 9) s).2)
          "topicA" "reqs" = Some 3.
Proof.
  intros s.
  assert (Hne : ("topicA", "reqs") <> ("topicB", "reqs")) by discriminate.
  split; [exact Hne|].
  exact (proj1 (proj2 (proj2 (proj2 (proj2
           (record_touches_one_counter "topicB" "reqs" 9 s "topicA" "reqs" Hne)))))).
Defined.

(** X3. A recording call raises exactly when the routing key has a bucket
    and the metric key is not in it; the exception is [KeyError] of the
    metric key, and the thread object is then exactly as it was. *)
Theorem record_raises_when_bucket_lacks_key
    (w : which) (rk key : string) (value : Z) (s : Proc) :
  let method := match w with
                | Stateless => publish_stateless
                | Statefull => publish_statefull
                end in
  (run (method rk key value) s).1 =
    match dict_get (table_of w s) rk with
    | Some b => if dict_has b key then Ok tt else Raised (KeyError key)
    | None => Ok tt
    end /\
  match (run (method rk key value) s).1 with
  | Raised _ => (run (method rk key value) s).2 = s
  | Ok _ => True
  end.
Proof.
  intros method. unfold method. rewrite method_body, run_record_into.
  cbn [fst snd]. unfold record_table, dict_has.
  destruct (dict_get (table_of w s) rk) as [b|]; [|done].
  destruct (dict_get b key); [done|]. split; [done | apply set_table_same].
Qed.

(** X4. A recording call never removes a counter: whatever pair of keys had
    a counter before the call has one after it. *)
Theorem record_keeps_counters
    (w : which) (rk key : string) (value : Z) (s : Proc) (rk' key' : string) :
  is_Some (counter (table_of w s) rk' key') ->
  let method := match w with
                | Stateless => publish_stateless
                | Statefull => publish_statefull
                end in
  is_Some (counter (table_of w (run (method rk key value) s).2) rk' key').
Proof.
  intros H method. unfold method. rewrite method_body, run_record_into.
  cbn [snd]. rewrite table_of_set_table.
  destruct (decide ((rk', key') = (rk, key))) as [[= -> ->]|Hne].
  - rewrite counter_record_same by (by right). by eexists.
  - by rewrite counter_record_other.
Qed.

Lemma record_keeps_counters_witness :
  is_Some (counter (table_of Statefull
                      (run (publish_statefull "topicB" "errors" 2)
                           (state sample_thread [("topicB", [("errors", 1)])] [] [])).2)
                   "topicB" "errors").
Proof.
  refine (record_keeps_counters Statefull "topicB" "errors" 2
            (state sample_thread [("topicB", [("errors", 1)])] [] [])
            "topicB" "errors" _).
  by eexists.
Defined.

(** * Further properties of the flush loop *)

(** X5. On tables whose routing keys are distinct and whose stateless
    buckets hold one counter each, one iteration of the loop does not
    raise: it sleeps, connects, then publishes one message for each
    stateless routing key, in table order, followed by one for each
    stateful routing key, each carrying the bucket as it stood under the
    sender's address; the stateful table is as before. *)
Theorem tick_reports_every_bucket
    (p : PublishThread) (F T : table) (d : dict bucket) (tr : list event) :
  tidy T -> NoDup (dict_keys F) -> data_ok p d ->
  exists d',
    (run (tick d) (state p F T tr)).1 = Ok d' /\
    trace (run (tick d) (state p F T tr)).2 =
      tr ++ [Slept (publish_interval p); Connected]
         ++ map (fun e => Published {| msg_exchange := exchange p;
                                       msg_routing_key := e.1;
                                       msg_body := [(ip p, e.2)] |}) T
         ++ map (fun e => Published {| msg_exchange := exchange p;
                                       msg_routing_key := e.1;
                                       msg_body := [(ip p, e.2)] |}) F /\
    table_of Statefull (run (tick d) (state p F T tr)).2 = F.
Proof.
  intros HT HF Hd. eexists. by rewrite tick_tidy.
Qed.

Lemma tick_reports_every_bucket_witness :
  trace (run (tick []) (state sample_thread [("topicB", [("errors", 1)])]
                          [("topicA", [("reqs", 8)])] [])).2 =
  [Slept (publish_interval sample_thread); Connected;
   envelope sample_thread "topicA" [("reqs", 8)];
   envelope sample_thread "topicB" [("errors", 1)]].
Proof.
  destruct (tick_reports_every_bucket sample_thread
              [("topicB", [("errors", 1)])] [("topicA", [("reqs", 8)])] [] [])
    as (d' & _ & Htrace & _).
  - split; [apply NoDup_singleton | apply Forall_singleton; by eexists _, _].
  - apply NoDup_singleton.
  - by left.
  - exact Htrace.
Defined.

Lemma after_flush_twice t : Forall single t -> after_flush (after_flush t) = [].
Proof.
  induction t as [|[rk b] t IH]; [done|]. intros Hs.
  apply Forall_cons in Hs as [(k & v & Hb) Hs]. simpl in Hb. subst b.
  simpl. destruct (v =? 0); simpl; by apply IH.
Qed.

(** X6. For calls made one at a time from a fresh thread: right after a
    flush every counter still in the stateless table is 0, and after a
    second flush with nothing recorded in between the stateless table is
    empty. *)
Theorem quiet_flushes_empty_stateless_table
    (p : PublishThread) (cs : list call) (rk key : string) (v : Z) :
  pristine p ->
  let once := step_call Flush (exec_calls cs (boot p)) in
  let twice := step_call Flush once in
  (counter (stateless_of once) rk key = Some v -> v = 0) /\
  stateless_of twice = [].
Proof.
  intros Hp once twice.
  pose proof (orderly_exec_calls p cs _ (orderly_boot p Hp)) as Hord.
  destruct (stateless_after_flush p _ Hord) as [[Hnd Hs] Honce].
  pose proof (orderly_step p Flush _ Hord) as Hord'.
  destruct (stateless_after_flush p _ Hord') as [_ Htwice].
  unfold twice, once. split.
  - rewrite Honce. intros Hv.
    by destruct (counter_after_flush _ _ _ _ (conj Hnd Hs) Hv) as [-> _].
  - rewrite Htwice, Honce. by apply after_flush_twice.
Qed.

Lemma quiet_flushes_empty_stateless_table_witness :
  let cs := [RecordStateless "topicA" "reqs" 5] in
  pristine sample_thread /\
  stateless_of (step_call Flush (step_call Flush (exec_calls cs (boot sample_thread)))) = [].
Proof.
  intros cs. split; [apply pristine_sample|].
  exact (proj2 (quiet_flushes_empty_stateless_table
                  sample_thread cs "topicA" "reqs" 0 pristine_sample)).
Defined.

Lemma single_length (e : string * bucket) : single e -> length e.2 = 1%nat.
Proof. intros (k & v & ->). done. Qed.

(** X7. For calls made one at a time from a fresh thread, both tables keep
    their routing keys distinct, every bucket holds exactly one metric key,
    and the publish loop is still running. *)
Theorem buckets_hold_one_key (p : PublishThread) (cs : list call) :
  pristine p ->
  let sys := exec_calls cs (boot p) in
  NoDup (dict_keys (stateless_of sys)) /\
  NoDup (dict_keys (statefull_of sys)) /\
  Forall (fun e => length e.2 = 1%nat) (stateless_of sys) /\
  Forall (fun e => length e.2 = 1%nat) (statefull_of sys) /\
  alive sys = true.
Proof.
  intros Hp sys.
  destruct (orderly_exec_calls p cs _ (orderly_boot p Hp))
    as (Ha & _ & F & T & tr & Hproc & [HndF HsF] & [HndT HsT]).
  unfold stateless_of, statefull_of. fold sys in Ha, Hproc. rewrite Hproc.
  cbn [state self monitoring_stateless_data monitoring_statefull_data].
  split_and!; try done.
  - eapply Forall_impl; [exact HsT | apply single_length].
  - eapply Forall_impl; [exact HsF | apply single_length].
Qed.

Lemma buckets_hold_one_key_witness :
  let cs := [RecordStateless "topicA" "reqs" 5; RecordStateless "topicA" "errors" 1;
             Flush] in
  pristine sample_thread /\
  Forall (fun e => length e.2 = 1%nat) (stateless_of (exec_calls cs (boot sample_thread))).
Proof.
  intros cs. split; [apply pristine_sample|].
  exact (proj1 (proj2 (proj2 (buckets_hold_one_key sample_thread cs pristine_sample)))).
Defined.

Lemma ticks_stateful_only p F n : forall d tr,
  NoDup (dict_keys F) -> data_ok p d ->
  exists d',
    data_ok p d' /\
    run (ticks n d) (state p F [] tr) =
    (Ok d',
     state p F []
       (tr ++ concat (replicate n ([Slept (publish_interval p); Connected]
                                     ++ reports p F)))).
Proof.
  induction n as [|n IH]; intros d tr HF Hd.
  - exists d. simpl. by rewrite app_nil_r.
  - cbn [ticks]. rewrite run_bind, tick_tidy by (done || apply tidy_nil).
    destruct (IH (data_after p (data_after p d []) F)
                 (tr ++ [Slept (publish_interval p); Connected] ++ reports p [] ++ reports p F)
                 HF) as (d' & Hd' & Hrun).
    { by do 2 apply data_ok_after. }
    exists d'. split; [done|]. cbn [after_flush]. rewrite Hrun. f_equal. f_equal.
    simpl. by rewrite <- !app_assoc.
Qed.

(** X8. With nothing in the stateless table, [n] iterations of
    [PublishThread.run] send the same stateful messages [n] times: every
    iteration sleeps, connects and publishes each stateful bucket with its
    unchanged totals, and the tables are as before. *)
Theorem run_republishes_stateful_totals
    (p : PublishThread) (F : table) (tr : list event) (n : nat) :
  NoDup (dict_keys F) ->
  exists d,
    run (PublishThread_run n) (state p F [] tr) =
    (Ok d,
     state p F []
       (tr ++ concat (replicate n
                        ([Slept (publish_interval p); Connected]
                           ++ map (fun e => envelope p e.1 e.2) F)))).
Proof.
  intros HF. unfold PublishThread_run.
  destruct (ticks_stateful_only p F n [] tr HF) as (d & _ & Hrun); [by left|].
  by exists d.
Qed.

Lemma run_republishes_stateful_totals_witness :
  exists d,
    run (PublishThread_run 2) (state sample_thread [("topicB", [("errors", 1)])] [] []) =
    (Ok d,
     state sample_thread [("topicB", [("errors", 1)])] []
       [Slept (publish_interval sample_thread); Connected;
        envelope sample_thread "topicB" [("errors", 1)];
        Slept (publish_interval sample_thread); Connected;
        envelope sample_thread "topicB" [("errors", 1)]]).
Proof.
  exact (run_republishes_stateful_totals sample_thread
           [("topicB", [("errors", 1)])] [] 2 (NoDup_singleton "topicB")).
Defined.

(** * The reset loop on any bucket *)

Lemma dict_keys_zeroed b : dict_keys (zeroed b) = dict_keys b.
Proof. unfold dict_keys, zeroed. induction b as [|[k v] b IH]; csimpl; [done|]. by f_equal. Qed.

Lemma zeroed_app b1 b2 : zeroed (b1 ++ b2) = zeroed b1 ++ zeroed b2.
Proof. apply map_app. Qed.

Lemma getitem_None_raises {V} (d : dict V) k :
  k ∉ dict_keys d -> getitem d k = Raised (KeyError k).
Proof. intros H. apply getitem_None. by apply dict_get_None. Qed.

(** The counters other than 0 at the front of a bucket are reset one by
    one, and the loop goes on with the keys behind them. *)
Lemma reset_counters_prefix p F done rk todo tr nz : forall pre rest ks,
  rk ∉ dict_keys done ->
  NoDup (dict_keys (pre ++ nz ++ rest)) ->
  Forall (fun e => e.2 <> 0) nz ->
  run (reset_counters rk (dict_keys nz ++ ks))
      (state p F (done ++ (rk, zeroed pre ++ nz ++ rest) :: todo) tr) =
  run (reset_counters rk ks)
      (state p F (done ++ (rk, zeroed (pre ++ nz) ++ rest) :: todo) tr).
Proof.
  induction nz as [|[k v] nz IH]; intros pre rest ks Hrk Hnd Hnz.
  - by rewrite app_nil_r.
  - apply Forall_cons in Hnz as [Hv Hnz]. simpl in Hv.
    assert (Hk : k ∉ dict_keys (zeroed pre)).
    { rewrite dict_keys_zeroed. rewrite dict_keys_app in Hnd.
      apply NoDup_app in Hnd as (_ & Hdisj & _). intros Hin.
      apply (Hdisj k Hin). unfold dict_keys. csimpl. apply list_elem_of_here. }
    change (dict_keys ((k, v) :: nz) ++ ks) with (k :: dict_keys nz ++ ks).
    cbn [reset_counters]. state_simpl.
    rewrite (getitem_app_r _ _ _ Hrk). state_simpl.
    rewrite (getitem_app_r _ _ _ Hk). cbn [app]. state_simpl.
    destruct (Z.eqb_spec v 0) as [?|_]; [done|].
    rewrite run_bind. state_simpl.
    rewrite (getitem_app_r _ _ _ Hrk). state_simpl.
    rewrite (dict_set_app_r done), dict_set_head by done.
    rewrite (dict_set_app_r (zeroed pre)) by done.
    cbn [app]. rewrite dict_set_head.
    assert (E1 : zeroed pre ++ (k, 0) :: nz ++ rest =
                 zeroed (pre ++ [(k, v)]) ++ nz ++ rest)
      by (by rewrite zeroed_app, <- app_assoc).
    assert (E2 : zeroed (pre ++ (k, v) :: nz) = zeroed ((pre ++ [(k, v)]) ++ nz))
      by (by rewrite <- app_assoc).
    rewrite E1, E2. apply IH; [done| |done]. by rewrite <- app_assoc.
Qed.

(** X9. The reset loop on any bucket with distinct keys, under a routing
    key that occurs once in the table.  Counters other than 0 are set to 0
    in turn.  If no counter is 0 the bucket stays, all at 0.  At the first
    counter that is 0 the routing key is deleted: when that key is the last
    one the loop ends normally, and when another key follows, the access
    for it raises [KeyError] of the routing key. *)
Theorem reset_counters_outcome
    (p : PublishThread) (F done todo : table) (rk : string)
    (tr : list event) (nz rest : bucket) :
  rk ∉ dict_keys done -> rk ∉ dict_keys todo ->
  NoDup (dict_keys (nz ++ rest)) ->
  Forall (fun e => e.2 <> 0) nz ->
  match rest with [] => True | e :: _ => e.2 = 0 end ->
  run (reset_counters rk (dict_keys (nz ++ rest)))
      (state p F (done ++ (rk, nz ++ rest) :: todo) tr) =
  match rest with
  | [] => (Ok tt, state p F (done ++ (rk, zeroed nz) :: todo) tr)
  | [_] => (Ok tt, state p F (done ++ todo) tr)
  | _ => (Raised (KeyError rk), state p F (done ++ todo) tr)
  end.
Proof.
  intros Hrk Hrk' Hnd Hnz Hrest.
  rewrite dict_keys_app.
  rewrite (reset_counters_prefix p F done rk todo tr nz [] rest) by done.
  cbn [app zeroed map].
  fold (zeroed nz).
  assert (Hgone : getitem (done ++ todo) rk = Raised (KeyError rk)).
  { apply getitem_None_raises. rewrite dict_keys_app.
    by intros [?|?]%elem_of_app. }
  destruct rest as [|[k v] rest].
  - by rewrite app_nil_r.
  - simpl in Hrest. subst v.
    assert (Hk : k ∉ dict_keys (zeroed nz)).
    { rewrite dict_keys_zeroed. rewrite dict_keys_app in Hnd.
      apply NoDup_app in Hnd as (_ & Hdisj & _). intros Hin.
      apply (Hdisj k Hin). unfold dict_keys. csimpl. apply list_elem_of_here. }
    change (dict_keys ((k, 0) :: rest)) with (k :: dict_keys rest).
    cbn [reset_counters]. state_simpl.
    rewrite (getitem_app_r _ _ _ Hrk). state_simpl.
    rewrite (getitem_app_r _ _ _ Hk). state_simpl.
    change (0 =? 0) with true. rewrite run_bind. state_simpl.
    rewrite (getitem_app_r _ _ _ Hrk). state_simpl.
    rewrite dict_del_app_r, dict_del_head by done.
    destruct rest as [|[k' v'] rest]; [done|].
    change (dict_keys ((k', v') :: rest)) with (k' :: dict_keys rest).
    cbn [reset_counters]. state_simpl. by rewrite Hgone.
Qed.

Lemma reset_counters_outcome_witness :
  run (reset_counters "topicA" ["reqs"; "errors"; "bytes"])
      (state sample_thread []
         [("topicA", [("reqs", 4); ("errors", 0); ("bytes", 2)])] []) =
  (Raised (KeyError "topicA"), state sample_thread [] [] []).
Proof.
  refine (reset_counters_outcome sample_thread [] [] [] "topicA" []
            [("reqs", 4)] [("errors", 0); ("bytes", 2)] _ _ _ _ _).
  - apply not_elem_of_nil.
  - apply not_elem_of_nil.
  - apply (bool_decide_unpack (NoDup ["reqs"; "errors"; "bytes"])). by vm_compute.
  - apply Forall_singleton. discriminate.
  - reflexivity.
Defined.

(** * Further properties of the control loop and of construction *)

(** X10. When a fetch raises, [ControlThread.run] ends with that
    exception: the fetches before it were each followed by a sleep, the
    failed one is not, no later fetch is made, and the cache holds the last
    hash fetched (what it held before when none was). *)
Theorem control_loop_stops_at_failed_fetch
    (fetched : list metric_table) (e : exn) (rest : list (result metric_table))
    (c : Control) :
  exists c',
    ControlThread_run (map Ok fetched ++ Raised e :: rest) c = (Raised e, c') /\
    control_trace c' =
      control_trace c ++
      flat_map (fun _ => [HGetAll "metrics"; ControlSlept (control_interval (thread c))])
               fetched ++
      [HGetAll "metrics"] /\
    cached c' = match last fetched with Some f => Some f | None => cached c end.
Proof.
  revert c. induction fetched as [|f fetched IH]; intros c.
  - eexists. simpl. split_and!; done.
  - cbn [map app ControlThread_run]. rewrite control_iteration_ok.
    destruct (IH {| thread := set_metric_list (length (memory c)) (thread c);
                    memory := memory c ++ [f];
                    control_trace := control_trace c ++
                      [HGetAll "metrics"; ControlSlept (control_interval (thread c))] |})
      as (c' & Hrun & Htr & Hcache).
    exists c'. split_and!; [done| |].
    + rewrite Htr. simpl. by rewrite <- !app_assoc.
    + rewrite Hcache. destruct fetched as [|f' fetched].
      * simpl. unfold cached. simpl. apply lookup_fresh.
      * rewrite last_cons_cons.
        destruct (last (f' :: fetched)) eqn:E; [done|]. by apply last_None in E.
Qed.

Section Construction.
Variable parse_int : string -> result Z.
Variable creator_daemon : bool.

(** X11. A publish thread that was constructed has both tables empty and
    is not started; its sender address is [bind_ip], a colon and
    [bind_port], which the configuration gives as strings; the exchange is
    "amq.topic" and the interval 1.01 unless the configuration sets them. *)
Theorem PublishThread_init_shape (conf : gmap string pyval) (pt : PublishThread) :
  PublishThread_init parse_int creator_daemon conf = Ok pt ->
  pristine pt /\
  publish_started pt = false /\
  (exists a b, conf !! "bind_ip" = Some (VStr a) /\
               conf !! "bind_port" = Some (VStr b) /\
               ip pt = (a +:+ ":") +:+ b) /\
  exchange pt = default (VStr "amq.topic") (conf !! "exchange") /\
  publish_interval pt = default (VFloat (101 # 100)) (conf !! "publish_interval").
Proof.
  unfold PublishThread_init, conf_get, str_plus, result_bind.
  destruct (conf !! "bind_ip") as [[|a| |]|]; simpl; try done.
  destruct (conf !! "bind_port") as [[|b| |]|]; simpl; try done.
  destruct (py_int _ _) as [z|]; [|done].
  intros [= <-]. simpl. split_and!; try done. by exists a, b.
Qed.

(** X12. Construction of the publish thread raises [TypeError] when
    [bind_ip] or [bind_port] is missing from the configuration or is not a
    string, and when [rabbit_port] is missing. *)
Theorem PublishThread_init_needs_address (conf : gmap string pyval) :
  (forall a, conf !! "bind_ip" <> Some (VStr a)) \/
  (forall b, conf !! "bind_port" <> Some (VStr b)) \/
  conf !! "rabbit_port" = None ->
  PublishThread_init parse_int creator_daemon conf = Raised TypeError.
Proof.
  unfold PublishThread_init, conf_get, str_plus, result_bind.
  intros [Hip|[Hport|Hrabbit]].
  - destruct (conf !! "bind_ip") as [[|a| |]|]; simpl; try done.
    by destruct (Hip a).
  - destruct (conf !! "bind_ip") as [[|a| |]|]; simpl; try done.
    destruct (conf !! "bind_port") as [[|b| |]|]; simpl; try done.
    by destruct (Hport b).
  - rewrite Hrabbit. simpl.
    destruct (conf !! "bind_ip") as [[|a| |]|]; simpl; try done.
    destruct (conf !! "bind_port") as [[|b| |]|]; simpl; done.
Qed.

(** X13. An access that raises while no instance exists caches nothing:
    the decorator still has no instance and no object was added, so the
    next access constructs again. *)
Theorem failed_access_caches_nothing
    (args : Kwargs) (w : World) (e : exn) (w' : World) :
  singleton_instance w = None ->
  Instance parse_int creator_daemon args w = (Raised e, w') ->
  singleton_instance w' = None /\ objects w' = objects w.
Proof.
  intros Hnone. unfold Instance. rewrite Hnone.
  destruct (kw_log args) as [log|]; [|by intros [= _ <-]].
  destruct (kw_conf args) as [conf|]; [|by intros [= _ <-]].
  destruct (CrystalIntrospectionControl_init _ _ _ _ _) as [[this|e'] h]; [done|].
  by intros [= _ <-].
Qed.
End Construction.

Lemma PublishThread_init_shape_witness :
  exists pt,
    PublishThread_init no_digits false sample_conf = Ok pt /\
    ip pt = "10.0.0.1:8080".
Proof.
  eexists. split; [reflexivity|].
  destruct (PublishThread_init_shape no_digits false sample_conf _ eq_refl)
    as (_ & _ & (a & b & Ha & Hb & Hip) & _).
  vm_compute in Ha, Hb. injection Ha as <-. injection Hb as <-. exact Hip.
Defined.

Lemma PublishThread_init_needs_address_witness :
  PublishThread_init no_digits false ∅ = Raised TypeError.
Proof.
  apply PublishThread_init_needs_address. left. intros a. by rewrite lookup_empty.
Defined.

Lemma failed_access_caches_nothing_witness :
  let args := {| kw_conf := Some ∅; kw_log := Some {| logger_name := "proxy-server" |} |} in
  singleton_instance (Instance no_digits false args empty_world).2 = None.
Proof.
  intros args.
  refine (proj1 (failed_access_caches_nothing no_digits false args empty_world
                   TypeError (Instance no_digits false args empty_world).2 eq_refl _)).
  by vm_compute.
Defined.
